(** * ExecutionGuard: runtime safety limits

    A shallow embedding of [core/framework/runtime/execution_guard.py].

    - Python [int] is [Z]; Python [float] is the kernel's binary64 [float]
      (same format, same round-to-nearest-even operations as CPython's C
      [double]); [Optional[T]] is [option T]; [dict[str, object]] is an
      association list in insertion order.
    - A method is a computation over the object [self]: it receives the guard
      and either returns a value together with the guard it leaves behind, or
      raises.
    - [time.time()] is the only input a method takes from outside [self]; each
      call site receives its reading as an argument, in call order.
    - The calls to [logger] write to the module's logger only and are left
      out. *)

From Stdlib Require Import ZArith List String Bool Lia QArith Permutation.
From Stdlib Require Import Floats.
Import ListNotations.

(* Decimal float literals are read to the nearest binary64 value, as Python
   reads them. *)
#[local] Set Warnings "-inexact-float".

Local Open Scope string_scope.
Local Open Scope Z_scope.

(** ** Python values *)

#[warnings="-register-all"]
Inductive pyval : Type :=
| PyNone
| PyInt (z : Z)
| PyFloat (f : float)
| PyStr (s : string)
| PyDict (d : list (string * pyval)).

Definition pydict := list (string * pyval).

(** [d[key]] for a key that may be absent. *)
Fixpoint dict_get (d : pydict) (key : string) : option pyval :=
  match d with
  | [] => None
  | (k, v) :: rest => if String.eqb k key then Some v else dict_get rest key
  end.

(** [None] for an unset optional integer, the integer otherwise. *)
Definition py_opt_int (o : option Z) : pyval :=
  match o with Some z => PyInt z | None => PyNone end.

Definition py_opt_float (o : option float) : pyval :=
  match o with Some f => PyFloat f | None => PyNone end.

(** ** Comparing a float with an int

    Python compares a [float] with an [int] by their exact mathematical
    values; NaN compares false with everything. *)

Definition sf_ge_int (x : spec_float) (z : Z) : bool :=
  match x with
  | S754_nan => false
  | S754_infinity s => negb s
  | S754_zero _ => z <=? 0
  | S754_finite s m e =>
      let n := if s then Zneg m else Zpos m in
      if 0 <=? e then z <=? n * 2 ^ e else z * 2 ^ (- e) <=? n
  end.

(** [f >= z] *)
Definition float_ge_int (f : float) (z : Z) : bool := sf_ge_int (Prim2SF f) z.

(** [f > 0], against the integer literal [0]. *)
Definition float_gt_zero (f : float) : bool := PrimFloat.ltb 0%float f.

(** The exact rational value of a finite float. *)
Definition sf_to_Q (x : spec_float) : option Q :=
  match x with
  | S754_zero _ => Some 0%Q
  | S754_finite s m e =>
      let n := if s then Zneg m else Zpos m in
      Some (if 0 <=? e then inject_Z (n * 2 ^ e) else Qmake n (Z.to_pos (2 ^ (- e))))
  | _ => None
  end.

Definition float_to_Q (f : float) : option Q := sf_to_Q (Prim2SF f).

(** ** Data model *)

(** [ExecutionLimitConfig] *)
Record ExecutionLimitConfig : Type := {
  max_steps : option Z;
  max_runtime_ms : option Z;
  max_tokens : option Z;
  max_cost_usd : option float
}.

(** [ExecutionGuardResult] *)
Record ExecutionGuardResult : Type := {
  should_terminate : bool;
  reason : string;
  details : pydict
}.

(** The attributes of an [ExecutionGuard] instance. *)
Record ExecutionGuard : Type := {
  execution_id : string;
  config : ExecutionLimitConfig;
  start_time : float;
  step_count : Z;
  token_count : Z;
  cost_tracker : float
}.

(** ** Methods *)

Inductive outcome (A : Type) : Type :=
| Returned (a : A)
| Raised (exc : string).
Arguments Returned {A} a.
Arguments Raised {A} exc.

Definition Method (A : Type) : Type := ExecutionGuard -> outcome (A * ExecutionGuard).

Definition ret {A} (a : A) : Method A := fun self => Returned (a, self).

Definition bind {A B} (m : Method A) (k : A -> Method B) : Method B :=
  fun self =>
    match m self with
    | Returned (a, self') => k a self'
    | Raised exc => Raised exc
    end.

Declare Scope method_scope.
Delimit Scope method_scope with method.
Notation "x <- m ;; k" := (bind m (fun x => k))
  (at level 61, m at next level, right associativity) : method_scope.
Notation "m ;; k" := (bind m (fun _ => k))
  (at level 61, right associativity) : method_scope.
Local Open Scope method_scope.

(** [self.attr] *)
Definition attr {A} (proj : ExecutionGuard -> A) : Method A :=
  fun self => Returned (proj self, self).

(** The guard with one attribute replaced. *)
Definition with_step_count (v : Z) (self : ExecutionGuard) : ExecutionGuard :=
  {| execution_id := execution_id self;
     config := config self;
     start_time := start_time self;
     step_count := v;
     token_count := token_count self;
     cost_tracker := cost_tracker self |}.

Definition with_token_count (v : Z) (self : ExecutionGuard) : ExecutionGuard :=
  {| execution_id := execution_id self;
     config := config self;
     start_time := start_time self;
     step_count := step_count self;
     token_count := v;
     cost_tracker := cost_tracker self |}.

Definition with_cost_tracker (v : float) (self : ExecutionGuard) : ExecutionGuard :=
  {| execution_id := execution_id self;
     config := config self;
     start_time := start_time self;
     step_count := step_count self;
     token_count := token_count self;
     cost_tracker := v |}.

(** [self.step_count = v], [self.token_count = v], [self.cost_tracker = v] *)
Definition set_step_count (v : Z) : Method unit :=
  fun self => Returned (tt, with_step_count v self).

Definition set_token_count (v : Z) : Method unit :=
  fun self => Returned (tt, with_token_count v self).

Definition set_cost_tracker (v : float) : Method unit :=
  fun self => Returned (tt, with_cost_tracker v self).

(** [(now - self.start_time) * 1000] *)
Definition runtime_ms (now : float) (self : ExecutionGuard) : float :=
  PrimFloat.mul (PrimFloat.sub now (start_time self)) 1000%float.

(** [ExecutionGuard(execution_id, config)] with [now] the reading of
    [time.time()]. *)
Definition __init__ (now : float) (execution_id : string) (config : ExecutionLimitConfig)
  : outcome ExecutionGuard :=
  Returned {| execution_id := execution_id;
              config := config;
              start_time := now;
              step_count := 0;
              token_count := 0;
              cost_tracker := 0%float |}.

Definition check_step_limit : Method (option ExecutionGuardResult) :=
  cfg <- attr config ;;
  n <- attr step_count ;;
  match max_steps cfg with
  | Some limit =>
      if limit <? n then
        ret (Some {| should_terminate := true;
                     reason := "STEP_LIMIT_EXCEEDED";
                     details := [("step_count", PyInt n);
                                 ("max_steps", PyInt limit)] |})
      else ret None
  | None => ret None
  end.

Definition check_runtime_limit (now : float) : Method (option ExecutionGuardResult) :=
  cfg <- attr config ;;
  match max_runtime_ms cfg with
  | Some limit =>
      current_runtime_ms <- attr (runtime_ms now) ;;
      if float_ge_int current_runtime_ms limit then
        ret (Some {| should_terminate := true;
                     reason := "TIME_LIMIT_EXCEEDED";
                     details := [("current_runtime_ms", PyFloat current_runtime_ms);
                                 ("max_runtime_ms", PyInt limit)] |})
      else ret None
  | None => ret None
  end.

Definition check_token_limit : Method (option ExecutionGuardResult) :=
  cfg <- attr config ;;
  n <- attr token_count ;;
  match max_tokens cfg with
  | Some limit =>
      if limit <=? n then
        ret (Some {| should_terminate := true;
                     reason := "TOKEN_LIMIT_EXCEEDED";
                     details := [("token_count", PyInt n);
                                 ("max_tokens", PyInt limit)] |})
      else ret None
  | None => ret None
  end.

Definition check_cost_limit : Method (option ExecutionGuardResult) :=
  cfg <- attr config ;;
  c <- attr cost_tracker ;;
  match max_cost_usd cfg with
  | Some limit =>
      if PrimFloat.leb limit c then
        ret (Some {| should_terminate := true;
                     reason := "COST_LIMIT_EXCEEDED";
                     details := [("current_cost_usd", PyFloat c);
                                 ("max_cost_usd", PyFloat limit)] |})
      else ret None
  | None => ret None
  end.

(** The [for check_result in checks] loop: the first entry that is not
    [None]. *)
Fixpoint first_not_none (checks : list (option ExecutionGuardResult))
  : option ExecutionGuardResult :=
  match checks with
  | [] => None
  | Some check_result :: _ => Some check_result
  | None :: rest => first_not_none rest
  end.

(** [now_check] is read by [check_runtime_limit], [now_snapshot] by the
    within-limits result. *)
Definition check_all_limits (now_check now_snapshot : float) : Method ExecutionGuardResult :=
  r_step <- check_step_limit ;;
  r_runtime <- check_runtime_limit now_check ;;
  r_token <- check_token_limit ;;
  r_cost <- check_cost_limit ;;
  let checks := [r_step; r_runtime; r_token; r_cost] in
  match first_not_none checks with
  | Some check_result => ret check_result
  | None =>
      n <- attr step_count ;;
      ms <- attr (runtime_ms now_snapshot) ;;
      t <- attr token_count ;;
      c <- attr cost_tracker ;;
      ret {| should_terminate := false;
             reason := "WITHIN_LIMITS";
             details := [("step_count", PyInt n);
                         ("runtime_ms", PyFloat ms);
                         ("token_count", PyInt t);
                         ("cost_usd", PyFloat c)] |}
  end.

Definition increment_step : Method unit :=
  n <- attr step_count ;;
  set_step_count (n + 1).

Definition add_tokens (token_count_arg : Z) : Method unit :=
  if 0 <? token_count_arg then
    n <- attr token_count ;;
    set_token_count (n + token_count_arg)
  else ret tt.

Definition add_cost (cost_usd : float) : Method unit :=
  if float_gt_zero cost_usd then
    c <- attr cost_tracker ;;
    set_cost_tracker (PrimFloat.add c cost_usd)
  else ret tt.

Definition get_stats (now : float) : Method pydict :=
  id <- attr execution_id ;;
  n <- attr step_count ;;
  ms <- attr (runtime_ms now) ;;
  t <- attr token_count ;;
  c <- attr cost_tracker ;;
  cfg <- attr config ;;
  ret [("execution_id", PyStr id);
       ("step_count", PyInt n);
       ("runtime_ms", PyFloat ms);
       ("token_count", PyInt t);
       ("cost_usd", PyFloat c);
       ("limits", PyDict [("max_steps", py_opt_int (max_steps cfg));
                          ("max_runtime_ms", py_opt_int (max_runtime_ms cfg));
                          ("max_tokens", py_opt_int (max_tokens cfg));
                          ("max_cost_usd", py_opt_float (max_cost_usd cfg))])].

(** The result of a check, when it returns. *)
Definition verdict {A : Type} (o : outcome (option A * ExecutionGuard)) : option A :=
  match o with
  | Returned (r, _) => r
  | Raised _ => None
  end.

(** ** Sequences of calls *)

(** The three calls by which the owner of a guard reports usage. *)
Inductive record_call : Type :=
| IncrementStep
| AddTokens (n : Z)
| AddCost (amount : float).

Definition call (c : record_call) : Method unit :=
  match c with
  | IncrementStep => increment_step
  | AddTokens n => add_tokens n
  | AddCost amount => add_cost amount
  end.

(** The calls of [cs], one after the other. *)
Fixpoint calls (cs : list record_call) : Method unit :=
  match cs with
  | [] => ret tt
  | c :: rest => call c ;; calls rest
  end.

(** The states a guard can be in: built by the constructor, then changed by
    calls that report usage. *)
Definition reachable (g : ExecutionGuard) : Prop :=
  exists now id cfg g0 cs,
    __init__ now id cfg = Returned g0 /\ calls cs g0 = Returned (tt, g).

(** The four conditions under which a check trips, as the [if] of each
    check reads them. *)
Definition step_trips (self : ExecutionGuard) : bool :=
  match max_steps (config self) with
  | Some limit => limit <? step_count self
  | None => false
  end.

Definition runtime_trips (now : float) (self : ExecutionGuard) : bool :=
  match max_runtime_ms (config self) with
  | Some limit => float_ge_int (runtime_ms now self) limit
  | None => false
  end.

Definition token_trips (self : ExecutionGuard) : bool :=
  match max_tokens (config self) with
  | Some limit => limit <=? token_count self
  | None => false
  end.

Definition cost_trips (self : ExecutionGuard) : bool :=
  match max_cost_usd (config self) with
  | Some limit => PrimFloat.leb limit (cost_tracker self)
  | None => false
  end.

(** ** The specification's side *)

(** The aggregate check as the specification words it: step, then runtime,
    then token, then cost; the first positive outcome, and the within-limits
    outcome when there is none. *)
Definition within_limits (now : float) (self : ExecutionGuard) : ExecutionGuardResult :=
  {| should_terminate := false;
     reason := "WITHIN_LIMITS";
     details := [("step_count", PyInt (step_count self));
                 ("runtime_ms", PyFloat (runtime_ms now self));
                 ("token_count", PyInt (token_count self));
                 ("cost_usd", PyFloat (cost_tracker self))] |}.



(** The three counters are non-negative. *)
Definition counters_nonneg (self : ExecutionGuard) : Prop :=
  0 <= step_count self /\
  0 <= token_count self /\
  PrimFloat.leb 0%float (cost_tracker self) = true.

(** A cost report that [add_cost] takes into account. *)
Definition positive_report (amount : float) : Prop :=
  PrimFloat.ltb 0%float amount = true.

(** The sum of finite floats as a rational number, without any rounding. *)
Fixpoint exact_sum (amounts : list float) : option Q :=
  match amounts with
  | [] => Some 0%Q
  | a :: rest =>
      match float_to_Q a, exact_sum rest with
      | Some q, Some s => Some (q + s)%Q
      | _, _ => None
      end
  end.

(** The sum as [add_cost] accumulates it from [0.0]: one binary64 addition
    per report, in report order. *)
Definition float_sum (amounts : list float) : float :=
  fold_left PrimFloat.add amounts 0%float.

(** ** Example guards *)

(** All four limits set: 3 steps, 100 ms, 100 tokens, 1 dollar. *)
Definition four_limits : ExecutionLimitConfig :=
  {| max_steps := Some 3; max_runtime_ms := Some 100;
     max_tokens := Some 100; max_cost_usd := Some 1%float |}.

(** A guard started at time 0 that is past all four limits one second
    later: 4 steps, 101 tokens, 2 dollars. *)
Definition guard_past_limits : ExecutionGuard :=
  {| execution_id := "run"; config := four_limits; start_time := 0%float;
     step_count := 4; token_count := 101; cost_tracker := 2%float |}.

(** A guard started at time 0 that sits exactly on its limits at time 0.1:
    3 steps, 100 tokens, 1 dollar. *)
Definition guard_at_limits : ExecutionGuard :=
  {| execution_id := "run"; config := four_limits; start_time := 0%float;
     step_count := 3; token_count := 100; cost_tracker := 1%float |}.


(** The guard that [__init__] builds. *)
Definition fresh_guard (now : float) (id : string) (cfg : ExecutionLimitConfig)
  : ExecutionGuard :=
  {| execution_id := id; config := cfg; start_time := now;
     step_count := 0; token_count := 0; cost_tracker := 0%float |}.

(** No limit set, and the usage in the test suite's run of that
    configuration: 1000 steps, a million tokens, a thousand dollars. *)
Definition no_limits : ExecutionLimitConfig :=
  {| max_steps := None; max_runtime_ms := None; max_tokens := None;
     max_cost_usd := None |}.

Definition significant_usage : list record_call :=
  (repeat IncrementStep 1000 ++ [AddTokens 1000000; AddCost 1000%float])%list.

Definition one_tenth : float := 0.1%float.

(** Ten reports of [0.1] against a ceiling of [1.0]. *)
Definition ten_dimes : list float := repeat one_tenth 10.

Definition one_dollar_config : ExecutionLimitConfig :=
  {| max_steps := None; max_runtime_ms := None; max_tokens := None;
     max_cost_usd := Some 1%float |}.

(** ** Summaries of a sequence of calls *)

(** The number of [increment_step] calls in [cs]. *)
Fixpoint steps_in (cs : list record_call) : Z :=
  match cs with
  | [] => 0
  | IncrementStep :: rest => 1 + steps_in rest
  | _ :: rest => steps_in rest
  end.

(** The sum of the token reports of [cs] that are positive. *)
Fixpoint tokens_in (cs : list record_call) : Z :=
  match cs with
  | [] => 0
  | AddTokens n :: rest => (if 0 <? n then n else 0) + tokens_in rest
  | _ :: rest => tokens_in rest
  end.

(** The cost reports of [cs] that are positive, in call order. *)
Fixpoint costs_in (cs : list record_call) : list float :=
  match cs with
  | [] => []
  | AddCost amount :: rest =>
      if PrimFloat.ltb 0%float amount then amount :: costs_in rest else costs_in rest
  | _ :: rest => costs_in rest
  end.

(** A float that is neither infinite nor NaN. *)
Definition finite_float (f : float) : bool :=
  match Prim2SF f with
  | S754_zero _ | S754_finite _ _ _ => true
  | S754_infinity _ | S754_nan => false
  end.


(** Every ceiling at zero. *)
Definition all_zero_limits : ExecutionLimitConfig :=
  {| max_steps := Some 0; max_runtime_ms := Some 0; max_tokens := Some 0;
     max_cost_usd := Some 0%float |}.

(** A fresh guard of [four_limits] started at a clock reading of 1000 s. *)
Definition guard_started_late : ExecutionGuard :=
  {| execution_id := "run"; config := four_limits; start_time := 1000%float;
     step_count := 0; token_count := 0; cost_tracker := 0%float |}.

(** Three cost reports whose accumulated sum depends on their order. *)
Definition dimes_ascending : list record_call :=
  [AddCost 0.1%float; AddCost 0.2%float; AddCost 0.3%float].

Definition dimes_rotated : list record_call :=
  [AddCost 0.2%float; AddCost 0.3%float; AddCost 0.1%float].

Definition sixty_cents_config : ExecutionLimitConfig :=
  {| max_steps := None; max_runtime_ms := None; max_tokens := None;
     max_cost_usd := Some 0.6000000000000001%float |}.

(** A guard without limits after one report of 1 dollar, and a report too
    small to change it. *)
Definition guard_with_one_dollar : ExecutionGuard :=
  {| execution_id := "run"; config := no_limits; start_time := 0%float;
     step_count := 0; token_count := 0; cost_tracker := 1%float |}.

Definition tiny_report : float := 1e-17%float.

(** ** Exact values of binary floating-point numbers *)

(** The right shift keeps, besides the quotient, the position of the
    remainder with respect to the half. *)
Definition shifted_by (M : Z) (a : Z) (r : shr_record) : Prop :=
  exists rem,
    M = a * shr_m r + rem /\ 0 <= rem < a /\ 0 <= shr_m r /\
    (shr_r r = true <-> a <= 2 * rem) /\
    (shr_s r = true <-> rem <> 0 /\ 2 * rem <> a).

(** [M1 * 2^e1 <= M2 * 2^e2], without fractions. *)
Definition value_le (M1 e1 M2 e2 : Z) : Prop :=
  M1 * 2 ^ (e1 - Z.min e1 e2) <= M2 * 2 ^ (e2 - Z.min e1 e2).

(** * Facts about binary64 arithmetic *)

(** The rounding of [SpecFloat], for any format with at least two bits of
    precision. *)
Section Rounding.
Variables prec emax : Z.
Hypothesis prec_gt_1 : 1 < prec.

Abbreviation fexp := (SpecFloat.fexp prec emax).
Abbreviation emin := (SpecFloat.emin prec emax).

(** A positive number of [d] binary digits lies in [[2^(d-1), 2^d)]. *)
Lemma digits2_pos_bounds (p : positive) :
  2 ^ (Zpos (digits2_pos p) - 1) <= Zpos p < 2 ^ Zpos (digits2_pos p).
Proof.
  induction p as [p IH | p IH | ]; cbn [digits2_pos].
  - rewrite Pos2Z.inj_succ, (Pos2Z.inj_xI p).
    replace (Z.succ (Zpos (digits2_pos p)) - 1) with (Zpos (digits2_pos p)) by lia.
    rewrite Z.pow_succ_r by lia.
    assert (H : 2 ^ Zpos (digits2_pos p) = 2 * 2 ^ (Zpos (digits2_pos p) - 1))
      by (rewrite <- Z.pow_succ_r by lia; f_equal; lia).
    lia.
  - rewrite Pos2Z.inj_succ, (Pos2Z.inj_xO p).
    replace (Z.succ (Zpos (digits2_pos p)) - 1) with (Zpos (digits2_pos p)) by lia.
    rewrite Z.pow_succ_r by lia.
    assert (H : 2 ^ Zpos (digits2_pos p) = 2 * 2 ^ (Zpos (digits2_pos p) - 1))
      by (rewrite <- Z.pow_succ_r by lia; f_equal; lia).
    lia.
  - cbn. lia.
Qed.

(** One step of the right shift halves the mantissa. *)
Lemma shr_1_div2 (r : shr_record) :
  0 <= shr_m r -> shr_m (shr_1 r) = shr_m r / 2.
Proof.
  destruct r as [m r s]; cbn [shr_m]; intros Hm.
  destruct m as [ | [p | p | ] | p ]; cbn [shr_1 shr_m].
  - reflexivity.
  - rewrite (Pos2Z.inj_xI p). apply Z.div_unique with (r := 1); lia.
  - rewrite (Pos2Z.inj_xO p). apply Z.div_unique with (r := 0); lia.
  - reflexivity.
  - lia.
Qed.

(** [p] steps divide it by [2^p]. *)
Lemma iter_shr_1_div (p : positive) :
  forall r, 0 <= shr_m r ->
  shr_m (iter_pos shr_1 p r) = shr_m r / 2 ^ Zpos p.
Proof.
  induction p as [p IH | p IH | ]; intros r Hr; cbn [iter_pos].
  - assert (H1 : 0 <= shr_m (shr_1 r)) by (rewrite shr_1_div2 by assumption; apply Z.div_pos; lia).
    assert (H2 : 0 <= shr_m (iter_pos shr_1 p (shr_1 r)))
      by (rewrite IH by assumption; apply Z.div_pos; [assumption | apply Z.pow_pos_nonneg; lia]).
    rewrite IH, IH, shr_1_div2 by assumption.
    rewrite !Z.div_div by (try apply Z.pow_pos_nonneg; lia).
    f_equal. rewrite (Pos2Z.inj_xI p).
    replace (2 * Zpos p + 1) with (1 + Zpos p + Zpos p) by lia.
    rewrite !Z.pow_add_r by lia. lia.
  - assert (H2 : 0 <= shr_m (iter_pos shr_1 p r))
      by (rewrite IH by assumption; apply Z.div_pos; [assumption | apply Z.pow_pos_nonneg; lia]).
    rewrite IH, IH by assumption.
    rewrite !Z.div_div by (try apply Z.pow_pos_nonneg; lia).
    f_equal. rewrite (Pos2Z.inj_xO p).
    replace (2 * Zpos p) with (Zpos p + Zpos p) by lia.
    rewrite !Z.pow_add_r by lia. lia.
  - rewrite shr_1_div2 by assumption. reflexivity.
Qed.

(** [shr_fexp] moves the exponent up to the canonical one, if that is
    higher, and divides the mantissa accordingly. *)
Lemma shr_fexp_spec (m e : Z) (l : location) :
  0 <= m ->
  let e' := Z.max e (fexp (Zdigits2 m + e)) in
  snd (shr_fexp prec emax m e l) = e' /\
  shr_m (fst (shr_fexp prec emax m e l)) = m / 2 ^ (e' - e).
Proof.
  intros Hm e'. unfold shr_fexp, shr.
  assert (Hrec : shr_m (shr_record_of_loc m l) = m)
    by (destruct l as [ | [ | | ] ]; reflexivity).
  subst e'.
  destruct (fexp (Zdigits2 m + e) - e) as [ | p | p ] eqn:Hn; cbn [fst snd].
  - split; [lia | ]. rewrite Hrec.
    replace (Z.max e (fexp (Zdigits2 m + e)) - e) with 0 by lia.
    now rewrite Z.pow_0_r, Z.div_1_r.
  - split; [lia | ]. rewrite iter_shr_1_div by lia. rewrite Hrec.
    do 2 f_equal. lia.
  - split; [lia | ]. rewrite Hrec.
    replace (Z.max e (fexp (Zdigits2 m + e)) - e) with 0 by lia.
    now rewrite Z.pow_0_r, Z.div_1_r.
Qed.

Lemma iter_xO_pow (m d : positive) :
  Zpos (Pos.iter xO m d) = Zpos m * 2 ^ Zpos d.
Proof.
  induction d as [ | d IH ] using Pos.peano_ind.
  - cbn [Pos.iter]. rewrite (Pos2Z.inj_xO m). lia.
  - rewrite Pos.iter_succ, (Pos2Z.inj_xO (Pos.iter xO m d)), IH, Pos2Z.inj_succ.
    rewrite Z.pow_succ_r by lia. lia.
Qed.

Lemma shl_align_fst (m : positive) (e ez : Z) :
  ez <= e -> Zpos (fst (shl_align m e ez)) = Zpos m * 2 ^ (e - ez).
Proof.
  intros Hle. unfold shl_align.
  destruct (ez - e) as [ | d | d ] eqn:Hd; cbn [fst]; try lia.
  - replace (e - ez) with 0 by lia. lia.
  - rewrite iter_xO_pow. do 2 f_equal. lia.
Qed.

Lemma bounded_canonical (m : positive) (e : Z) :
  bounded prec emax m e = true ->
  fexp (Zpos (digits2_pos m) + e) = e /\ emin <= e /\ e <= emax - prec.
Proof.
  unfold bounded, canonical_mantissa. intros H.
  apply andb_prop in H. destruct H as [H1 H2].
  apply Z.eqb_eq in H1. apply Z.leb_le in H2.
  repeat split; try assumption.
  rewrite <- H1. unfold SpecFloat.fexp. lia.
Qed.

(** That shift keeps a positive mantissa positive when the exponent is not
    below [emin]. *)
Lemma shift_keeps_pos (m e : Z) :
  0 < m -> emin <= e ->
  0 < m / 2 ^ (Z.max e (fexp (Zdigits2 m + e)) - e).
Proof.
  intros Hm He.
  destruct m as [ | p | p ]; try lia. cbn [Zdigits2].
  pose proof (digits2_pos_bounds p) as [Hlo _].
  set (d := Zpos (digits2_pos p)) in *.
  destruct (Z.le_gt_cases (fexp (d + e)) e) as [Hsmall | Hbig].
  - replace (Z.max e (fexp (d + e)) - e) with 0 by lia.
    rewrite Z.pow_0_r, Z.div_1_r. lia.
  - assert (Hk : Z.max e (fexp (d + e)) - e = d - prec)
      by (unfold SpecFloat.fexp in *; lia).
    rewrite Hk.
    assert (Hkpos : 0 < d - prec) by (unfold SpecFloat.fexp in *; lia).
    apply Z.lt_le_trans with (2 ^ (prec - 1)).
    + apply Z.pow_pos_nonneg; lia.
    + apply Z.div_le_lower_bound.
      * apply Z.pow_pos_nonneg; lia.
      * rewrite <- Z.pow_add_r by lia.
        replace (d - prec + (prec - 1)) with (d - 1) by lia. exact Hlo.
Qed.

Lemma round_nearest_even_ge (m : Z) (l : location) :
  m <= round_nearest_even m l.
Proof.
  destruct l as [ | [ | | ] ]; cbn [round_nearest_even]; try lia.
  destruct (Z.even m); lia.
Qed.

(** Adding a positive finite number to a non-negative finite number never
    gives less than the latter. *)
Lemma SFadd_finite_ge (mx : positive) (ex : Z) (my : positive) (ey : Z) :
  bounded prec emax mx ex = true ->
  bounded prec emax my ey = true ->
  SFleb (S754_finite false mx ex)
        (SFadd prec emax (S754_finite false mx ex) (S754_finite false my ey)) = true.
Proof.
  intros Bx By.
  destruct (bounded_canonical _ _ Bx) as (Cx & Lx & Ux).
  destruct (bounded_canonical _ _ By) as (Cy & Ly & Uy).
  cbn [SFadd cond_Zopp].
  set (ez := Z.min ex ey).
  assert (Hzx : ez <= ex) by (subst ez; lia).
  assert (Hzy : ez <= ey) by (subst ez; lia).
  assert (Hz : emin <= ez) by (subst ez; lia).
  pose proof (shl_align_fst mx ex ez Hzx) as Ax.
  pose proof (shl_align_fst my ey ez Hzy) as Ay.
  set (ax := fst (shl_align mx ex ez)) in *.
  set (ay := fst (shl_align my ey ez)) in *.
  cbn [Z.add binary_normalize]. unfold binary_round.
  set (M := (ax + ay)%positive).
  assert (HM : Zpos mx * 2 ^ (ex - ez) < Zpos M) by (subst M; lia).
  (* the sum has at least as many digits, at its exponent, as [mx] at [ex] *)
  pose proof (digits2_pos_bounds mx) as [Hlo_x _].
  pose proof (digits2_pos_bounds M) as [HloM HhiM].
  set (dx := Zpos (digits2_pos mx)) in *.
  set (dM := Zpos (digits2_pos M)) in *.
  assert (Hd : dx + ex <= dM + ez).
  { assert (H : 2 ^ (dx - 1 + (ex - ez)) < 2 ^ dM).
    { rewrite Z.pow_add_r by lia.
      apply Z.le_lt_trans with (Zpos mx * 2 ^ (ex - ez)); [ | lia ].
      apply Z.mul_le_mono_nonneg_r; [ apply Z.pow_nonneg; lia | exact Hlo_x ]. }
    apply Z.pow_lt_mono_r_iff in H; lia. }
  assert (Hf : ex <= fexp (dM + ez)) by (unfold SpecFloat.fexp in *; lia).
  (* no left alignment takes place *)
  assert (Hal : shl_align M ez (fexp (dM + ez)) = (M, ez)).
  { unfold shl_align. destruct (fexp (dM + ez) - ez) eqn:Hsub; try reflexivity. lia. }
  rewrite Hal. unfold binary_round_aux.
  destruct (shr_fexp_spec (Zpos M) ez loc_Exact ltac:(lia)) as [E1 M1].
  destruct (shr_fexp prec emax (Zpos M) ez loc_Exact) as [mrs1 e1].
  cbn [fst snd] in E1, M1. cbn [Zdigits2] in E1, M1. fold dM in E1, M1.
  set (R := round_nearest_even (shr_m mrs1) (loc_of_shr_record mrs1)).
  assert (HT : 0 < shr_m mrs1).
  { rewrite M1. apply shift_keeps_pos; lia. }
  assert (HR : shr_m mrs1 <= R) by apply round_nearest_even_ge.
  destruct (shr_fexp_spec R e1 loc_Exact ltac:(lia)) as [E2 M2].
  pose proof (shift_keeps_pos R e1 ltac:(lia) ltac:(lia)) as P2.
  destruct (shr_fexp prec emax R e1 loc_Exact) as [mrs2 e2].
  cbn [fst snd] in E2, M2. rewrite <- M2 in P2. rewrite <- E2 in M2.
  destruct (shr_m mrs2) as [ | m2 | m2 ] eqn:Hm2; try lia.
  destruct (e2 <=? emax - prec); [ | reflexivity ].
  unfold SFleb. cbn [SFcompare].
  destruct (Z.compare_spec ex e2) as [Heq | Hlt | Hgt]; try reflexivity; try lia.
  assert (Hge : Zpos mx <= Zpos m2).
  { assert (He1 : e1 = ex) by lia.
    assert (Hk2 : e2 - e1 = 0) by lia.
    rewrite Hk2, Z.pow_0_r, Z.div_1_r in M2.
    rewrite M2. apply Z.le_trans with (shr_m mrs1); [ | exact HR ].
    rewrite M1. apply Z.div_le_lower_bound.
    - apply Z.pow_pos_nonneg; lia.
    - replace (Z.max ez (fexp (dM + ez)) - ez) with (ex - ez) by lia. lia. }
  rewrite Pos.compare_cont_spec. cbn [Pos.switch_Eq].
  destruct (Pos.compare_spec mx m2); try reflexivity. lia.
Qed.

End Rounding.

(** ** Binary64 *)

Lemma Prim2SF_zero : Prim2SF 0%float = S754_zero false.
Proof. reflexivity. Qed.

(** [a <= 0] excludes [0 < a]; NaN satisfies neither. *)
Lemma float_nonpos_not_pos (a : float) :
  PrimFloat.leb a 0%float = true -> PrimFloat.ltb 0%float a = false.
Proof.
  rewrite leb_spec, ltb_spec, Prim2SF_zero. unfold SFleb, SFltb.
  destruct (Prim2SF a) as [ s | [ | ] | | [ | ] m e ]; cbn; congruence.
Qed.

(** Adding a positive float to a non-negative one gives a float that is not
    below the latter, and not below zero. *)
Lemma float_add_pos_ge (c a : float) :
  PrimFloat.leb 0%float c = true ->
  PrimFloat.ltb 0%float a = true ->
  PrimFloat.leb c (PrimFloat.add c a) = true /\
  PrimFloat.leb 0%float (PrimFloat.add c a) = true.
Proof.
  rewrite !leb_spec, ltb_spec, add_spec, Prim2SF_zero.
  pose proof (Prim2SF_valid c) as Vc. pose proof (Prim2SF_valid a) as Va.
  unfold SF64add.
  destruct (Prim2SF c) as [ sc | [ | ] | | [ | ] mc ec ];
    destruct (Prim2SF a) as [ sa | [ | ] | | [ | ] ma ea ];
    try (cbn; discriminate); try (cbn; intros _ _; split; reflexivity).
  intros _ _. cbn in Vc, Va.
  pose proof (SFadd_finite_ge prec emax ltac:(reflexivity) mc ec ma ea Vc Va) as H.
  split; [ exact H | ].
  revert H. unfold SFleb.
  destruct (SFadd prec emax (S754_finite false mc ec) (S754_finite false ma ea))
    as [ s | [ | ] | | [ | ] m e ]; cbn; congruence.
Qed.


(** A non-negative float, which is not NaN, is [<=] itself. *)
Lemma float_leb_refl (c : float) :
  PrimFloat.leb 0%float c = true -> PrimFloat.leb c c = true.
Proof.
  rewrite !leb_spec, Prim2SF_zero. unfold SFleb.
  destruct (Prim2SF c) as [ s | [ | ] | | [ | ] m e ]; cbn [SFcompare];
    try discriminate; try reflexivity.
  intros _. rewrite Z.compare_refl, Pos.compare_cont_refl. reflexivity.
Qed.

(** [<=] is transitive. *)
Lemma SFleb_trans (x y z : spec_float) :
  SFleb x y = true -> SFleb y z = true -> SFleb x z = true.
Proof.
  unfold SFleb.
  destruct x as [ [ | ] | [ | ] | | [ | ] mx ex ];
    destruct y as [ [ | ] | [ | ] | | [ | ] my ey ];
    destruct z as [ [ | ] | [ | ] | | [ | ] mz ez ];
    cbn [SFcompare]; try discriminate; try reflexivity;
    rewrite ?Pos.compare_cont_spec; cbn [Pos.switch_Eq];
    destruct (Z.compare_spec ex ey); try discriminate;
    destruct (Z.compare_spec ey ez); try discriminate;
    destruct (Z.compare_spec ex ez); try reflexivity; try lia;
    destruct (Pos.compare_spec mx my); cbn [CompOpp]; try discriminate;
    destruct (Pos.compare_spec my mz); cbn [CompOpp]; try discriminate;
    destruct (Pos.compare_spec mx mz); cbn [CompOpp]; try reflexivity; try lia.
Qed.

Lemma float_leb_trans (x y z : float) :
  PrimFloat.leb x y = true -> PrimFloat.leb y z = true -> PrimFloat.leb x z = true.
Proof. rewrite !leb_spec. apply SFleb_trans. Qed.

(** * What each method computes *)

Ltac run_method :=
  unfold check_step_limit, check_runtime_limit, check_token_limit, check_cost_limit,
    increment_step, add_tokens, add_cost, get_stats,
    set_step_count, set_token_count, set_cost_tracker, bind, attr, ret;
  cbn beta iota.

Lemma check_step_limit_run (g : ExecutionGuard) :
  check_step_limit g =
  Returned (match max_steps (config g) with
            | Some limit =>
                if limit <? step_count g then
                  Some {| should_terminate := true;
                          reason := "STEP_LIMIT_EXCEEDED";
                          details := [("step_count", PyInt (step_count g));
                                      ("max_steps", PyInt limit)] |}
                else None
            | None => None
            end, g).
Proof.
  run_method. destruct (max_steps (config g)) as [limit | ]; [ | reflexivity ].
  destruct (limit <? step_count g); reflexivity.
Qed.

Lemma check_runtime_limit_run (now : float) (g : ExecutionGuard) :
  check_runtime_limit now g =
  Returned (match max_runtime_ms (config g) with
            | Some limit =>
                if float_ge_int (runtime_ms now g) limit then
                  Some {| should_terminate := true;
                          reason := "TIME_LIMIT_EXCEEDED";
                          details := [("current_runtime_ms", PyFloat (runtime_ms now g));
                                      ("max_runtime_ms", PyInt limit)] |}
                else None
            | None => None
            end, g).
Proof.
  run_method. destruct (max_runtime_ms (config g)) as [limit | ]; [ | reflexivity ].
  cbn beta iota. destruct (float_ge_int (runtime_ms now g) limit); reflexivity.
Qed.

Lemma check_token_limit_run (g : ExecutionGuard) :
  check_token_limit g =
  Returned (match max_tokens (config g) with
            | Some limit =>
                if limit <=? token_count g then
                  Some {| should_terminate := true;
                          reason := "TOKEN_LIMIT_EXCEEDED";
                          details := [("token_count", PyInt (token_count g));
                                      ("max_tokens", PyInt limit)] |}
                else None
            | None => None
            end, g).
Proof.
  run_method. destruct (max_tokens (config g)) as [limit | ]; [ | reflexivity ].
  destruct (limit <=? token_count g); reflexivity.
Qed.

Lemma check_cost_limit_run (g : ExecutionGuard) :
  check_cost_limit g =
  Returned (match max_cost_usd (config g) with
            | Some limit =>
                if PrimFloat.leb limit (cost_tracker g) then
                  Some {| should_terminate := true;
                          reason := "COST_LIMIT_EXCEEDED";
                          details := [("current_cost_usd", PyFloat (cost_tracker g));
                                      ("max_cost_usd", PyFloat limit)] |}
                else None
            | None => None
            end, g).
Proof.
  run_method. destruct (max_cost_usd (config g)) as [limit | ]; [ | reflexivity ].
  destruct (PrimFloat.leb limit (cost_tracker g)); reflexivity.
Qed.

Lemma check_all_limits_run (now_check now_snapshot : float) (g : ExecutionGuard) :
  check_all_limits now_check now_snapshot g =
  Returned (match first_not_none [verdict (check_step_limit g);
                                  verdict (check_runtime_limit now_check g);
                                  verdict (check_token_limit g);
                                  verdict (check_cost_limit g)] with
            | Some r => r
            | None => within_limits now_snapshot g
            end, g).
Proof.
  unfold check_all_limits.
  unfold bind at 1. rewrite check_step_limit_run.
  unfold bind at 1. rewrite check_runtime_limit_run.
  unfold bind at 1. rewrite check_token_limit_run.
  unfold bind at 1. rewrite check_cost_limit_run.
  cbn [verdict].
  destruct (first_not_none _); reflexivity.
Qed.


(** The outcome of [check_all_limits], case by case. *)
Lemma check_all_limits_cases (now_check now_snapshot : float) (g : ExecutionGuard) :
  exists r,
    check_all_limits now_check now_snapshot g = Returned (r, g) /\
    ((step_trips g = true /\
      should_terminate r = true /\ reason r = "STEP_LIMIT_EXCEEDED")
     \/ (step_trips g = false /\ runtime_trips now_check g = true /\
         should_terminate r = true /\ reason r = "TIME_LIMIT_EXCEEDED")
     \/ (step_trips g = false /\ runtime_trips now_check g = false /\
         token_trips g = true /\
         should_terminate r = true /\ reason r = "TOKEN_LIMIT_EXCEEDED")
     \/ (step_trips g = false /\ runtime_trips now_check g = false /\
         token_trips g = false /\ cost_trips g = true /\
         should_terminate r = true /\ reason r = "COST_LIMIT_EXCEEDED")
     \/ (step_trips g = false /\ runtime_trips now_check g = false /\
         token_trips g = false /\ cost_trips g = false /\
         r = within_limits now_snapshot g)).
Proof.
  rewrite check_all_limits_run, check_step_limit_run, check_runtime_limit_run,
    check_token_limit_run, check_cost_limit_run.
  unfold step_trips, runtime_trips, token_trips, cost_trips. cbn [verdict].
  eexists. split; [ reflexivity | ].
  destruct (max_steps (config g)) as [ ls | ];
    [ destruct (ls <? step_count g); [ left; repeat split | ] | ];
    (destruct (max_runtime_ms (config g)) as [ lr | ];
     [ destruct (float_ge_int (runtime_ms now_check g) lr);
       [ right; left; repeat split | ] | ]);
    (destruct (max_tokens (config g)) as [ lt | ];
     [ destruct (lt <=? token_count g); [ do 2 right; left; repeat split | ] | ]);
    (destruct (max_cost_usd (config g)) as [ lc | ];
     [ destruct (PrimFloat.leb lc (cost_tracker g));
       [ do 3 right; left; repeat split | ] | ]);
    do 4 right; repeat split.
Qed.

(** * The aggregate check *)



(** * Recording usage *)

Lemma increment_step_run (g : ExecutionGuard) :
  increment_step g = Returned (tt, with_step_count (step_count g + 1) g).
Proof. reflexivity. Qed.

Lemma add_tokens_run (n : Z) (g : ExecutionGuard) :
  add_tokens n g =
  Returned (tt, if 0 <? n then with_token_count (token_count g + n) g else g).
Proof. unfold add_tokens. destruct (0 <? n); reflexivity. Qed.

Lemma add_cost_run (amount : float) (g : ExecutionGuard) :
  add_cost amount g =
  Returned (tt, if PrimFloat.ltb 0%float amount
                then with_cost_tracker (PrimFloat.add (cost_tracker g) amount) g
                else g).
Proof.
  unfold add_cost, float_gt_zero. destruct (PrimFloat.ltb 0%float amount); reflexivity.
Qed.

Lemma calls_cons (c : record_call) (rest : list record_call) (g : ExecutionGuard) :
  calls (c :: rest) g =
  match call c g with
  | Returned (_, g') => calls rest g'
  | Raised exc => Raised exc
  end.
Proof.
  cbn [calls]. unfold bind. destruct (call c g) as [ [ [] g' ] | exc ]; reflexivity.
Qed.

Lemma calls_increment_step (k : nat) :
  forall g,
    calls (repeat IncrementStep k) g =
    Returned (tt, with_step_count (step_count g + Z.of_nat k) g).
Proof.
  induction k as [ | k IH ]; intros g.
  - cbn [repeat calls]. unfold ret. rewrite Z.add_0_r. destruct g; reflexivity.
  - cbn [repeat]. rewrite calls_cons. cbn [call]. rewrite increment_step_run, IH.
    unfold with_step_count at 1 2 3. cbn [execution_id config start_time step_count
      token_count cost_tracker]. unfold with_step_count.
    do 3 f_equal. lia.
Qed.

(** C2. On a fresh guard with [max_steps = k], [k] calls of [increment_step]
    followed by [check_step_limit] give no trip, and [k + 1] calls give a
    trip with [should_terminate], reason "STEP_LIMIT_EXCEEDED" and
    [details["step_count"] == k + 1].  In any state the check trips exactly
    when [step_count > max_steps]. *)
Theorem step_limit_allows_exactly_max_steps
    (k : nat) (now : float) (id : string) (cfg : ExecutionLimitConfig) (g0 : ExecutionGuard) :
  max_steps cfg = Some (Z.of_nat k) ->
  __init__ now id cfg = Returned g0 ->
  (exists g,
      (calls (repeat IncrementStep k) ;; check_step_limit) g0 = Returned (None, g) /\
      step_count g = Z.of_nat k)
  /\ (exists r g,
      (calls (repeat IncrementStep (S k)) ;; check_step_limit) g0 = Returned (Some r, g) /\
      should_terminate r = true /\
      reason r = "STEP_LIMIT_EXCEEDED" /\
      dict_get (details r) "step_count" = Some (PyInt (Z.of_nat k + 1)))
  /\ (forall g limit,
      max_steps (config g) = Some limit ->
      (exists r, check_step_limit g = Returned (Some r, g)) <-> limit < step_count g).
Proof.
  intros Hk Hinit. unfold __init__ in Hinit. injection Hinit as <-.
  split; [ | split ].
  - eexists. unfold bind. rewrite calls_increment_step, check_step_limit_run.
    cbn [with_step_count config step_count]. rewrite Hk.
    rewrite (proj2 (Z.ltb_ge _ _)) by lia. split; [ reflexivity | ]. cbn. lia.
  - unfold bind. rewrite calls_increment_step, check_step_limit_run.
    cbn [with_step_count config step_count]. rewrite Hk.
    rewrite (proj2 (Z.ltb_lt _ _)) by lia.
    do 2 eexists. split; [ reflexivity | ].
    cbn [should_terminate reason details dict_get String.eqb Ascii.eqb Bool.eqb].
    repeat split. do 2 f_equal. lia.
  - intros g limit Hl. rewrite check_step_limit_run, Hl.
    destruct (Z.ltb_spec limit (step_count g)) as [Hlt | Hge].
    + split; [ intros _; exact Hlt | intros _; eexists; reflexivity ].
    + split; [ intros [r Hr]; discriminate | lia ].
Qed.

(** [max_steps = 3], as in the test suite: three steps pass, the fourth
    trips. *)
Lemma step_limit_allows_exactly_max_steps_witness :
  (exists g,
      (calls (repeat IncrementStep 3) ;; check_step_limit)
        {| execution_id := "test-execution";
           config := {| max_steps := Some 3; max_runtime_ms := None;
                        max_tokens := None; max_cost_usd := None |};
           start_time := 0%float; step_count := 0; token_count := 0;
           cost_tracker := 0%float |} = Returned (None, g) /\
      step_count g = 3)
  /\ (exists r g,
      (calls (repeat IncrementStep 4) ;; check_step_limit)
        {| execution_id := "test-execution";
           config := {| max_steps := Some 3; max_runtime_ms := None;
                        max_tokens := None; max_cost_usd := None |};
           start_time := 0%float; step_count := 0; token_count := 0;
           cost_tracker := 0%float |} = Returned (Some r, g) /\
      should_terminate r = true /\
      reason r = "STEP_LIMIT_EXCEEDED" /\
      dict_get (details r) "step_count" = Some (PyInt 4)).
Proof.
  pose proof (step_limit_allows_exactly_max_steps 3 0%float "test-execution"
                {| max_steps := Some 3; max_runtime_ms := None;
                   max_tokens := None; max_cost_usd := None |} _
                eq_refl eq_refl) as [H1 [H2 _]].
  split; [ exact H1 | exact H2 ].
Defined.

(** * The comparison of a float with an integer *)

(** [float_ge_int] is the comparison of the exact values. *)
Lemma float_ge_int_exact (f : float) (z : Z) (q : Q) :
  float_to_Q f = Some q ->
  float_ge_int f z = true <-> (inject_Z z <= q)%Q.
Proof.
  unfold float_to_Q, float_ge_int.
  destruct (Prim2SF f) as [ s | s | | s m e ]; cbn [sf_to_Q sf_ge_int];
    try discriminate; intros [= <-].
  - rewrite Z.leb_le. unfold Qle, inject_Z. cbn [Qnum Qden]. lia.
  - destruct (0 <=? e) eqn:He.
    + rewrite Z.leb_le, Zle_Qle. reflexivity.
    + apply Z.leb_gt in He. rewrite Z.leb_le.
      unfold Qle, inject_Z. cbn [Qnum Qden].
      rewrite Z2Pos.id by (apply Z.pow_pos_nonneg; lia). lia.
Qed.

(** * Construction *)




(** * Sequences of usage reports *)

Lemma call_returns (c : record_call) (g : ExecutionGuard) :
  exists g', call c g = Returned (tt, g') /\
             execution_id g' = execution_id g /\
             config g' = config g /\
             start_time g' = start_time g.
Proof.
  destruct c as [ | n | amount ]; cbn [call].
  - rewrite increment_step_run. eexists. repeat split.
  - rewrite add_tokens_run. eexists. split; [ reflexivity | ].
    destruct (0 <? n); repeat split.
  - rewrite add_cost_run. eexists. split; [ reflexivity | ].
    destruct (PrimFloat.ltb 0%float amount); repeat split.
Qed.

Lemma calls_return (cs : list record_call) :
  forall g, exists g', calls cs g = Returned (tt, g') /\
                       execution_id g' = execution_id g /\
                       config g' = config g /\
                       start_time g' = start_time g.
Proof.
  induction cs as [ | c rest IH ]; intros g.
  - exists g. repeat split.
  - rewrite calls_cons.
    destruct (call_returns c g) as (g1 & -> & Hid & Hcfg & Hst).
    destruct (IH g1) as (g2 & -> & Hid2 & Hcfg2 & Hst2).
    exists g2. repeat split; congruence.
Qed.

(** Closes a goal [reason r <> ...] from the cases of [check_all_limits]
    and the fact [Hno] that the check of that reason does not trip. *)
Ltac rule_out_reason Hcases Hno :=
  destruct Hcases as [ (T & _ & Hreason) | [ (_ & T & _ & Hreason)
    | [ (_ & _ & T & _ & Hreason) | [ (_ & _ & _ & T & _ & Hreason)
    | (_ & _ & _ & _ & Hreason) ] ] ] ];
  first [ congruence
        | rewrite Hreason; discriminate
        | rewrite Hreason; cbn; discriminate ].

(** C6. A limit that is unset never trips, whatever has been recorded: after
    any sequence of [increment_step], [add_tokens] and [add_cost] calls on a
    fresh guard, the check of an unset dimension returns [None] and
    [check_all_limits] does not report that dimension; with all four limits
    unset [check_all_limits] returns the within-limits outcome. *)
Theorem unset_limit_never_trips
    (now : float) (id : string) (cfg : ExecutionLimitConfig) (g0 : ExecutionGuard)
    (cs : list record_call) :
  __init__ now id cfg = Returned g0 ->
  exists g,
    calls cs g0 = Returned (tt, g)
    /\ (max_steps cfg = None ->
        check_step_limit g = Returned (None, g) /\
        forall t1 t2 r, check_all_limits t1 t2 g = Returned (r, g) ->
                        reason r <> "STEP_LIMIT_EXCEEDED")
    /\ (max_runtime_ms cfg = None ->
        forall t1,
          check_runtime_limit t1 g = Returned (None, g) /\
          forall t2 r, check_all_limits t1 t2 g = Returned (r, g) ->
                       reason r <> "TIME_LIMIT_EXCEEDED")
    /\ (max_tokens cfg = None ->
        check_token_limit g = Returned (None, g) /\
        forall t1 t2 r, check_all_limits t1 t2 g = Returned (r, g) ->
                        reason r <> "TOKEN_LIMIT_EXCEEDED")
    /\ (max_cost_usd cfg = None ->
        check_cost_limit g = Returned (None, g) /\
        forall t1 t2 r, check_all_limits t1 t2 g = Returned (r, g) ->
                        reason r <> "COST_LIMIT_EXCEEDED")
    /\ (max_steps cfg = None -> max_runtime_ms cfg = None ->
        max_tokens cfg = None -> max_cost_usd cfg = None ->
        forall t1 t2,
          check_all_limits t1 t2 g = Returned (within_limits t2 g, g) /\
          should_terminate (within_limits t2 g) = false /\
          reason (within_limits t2 g) = "WITHIN_LIMITS").
Proof.
  intros Hinit. unfold __init__ in Hinit. injection Hinit as <-.
  destruct (calls_return cs {| execution_id := id; config := cfg; start_time := now;
                               step_count := 0; token_count := 0;
                               cost_tracker := 0%float |}) as (g & Hg & _ & Hcfg & _).
  cbn [config] in Hcfg. exists g. split; [ exact Hg | ].
  repeat match goal with |- _ /\ _ => split end.
  - intros Hnone. rewrite check_step_limit_run, Hcfg, Hnone. split; [ reflexivity | ].
    intros t1 t2 r Hr.
    destruct (check_all_limits_cases t1 t2 g) as (r' & Hr' & Hcases).
    assert (r' = r) as -> by congruence.
    assert (Hno : step_trips g = false) by (unfold step_trips; now rewrite Hcfg, Hnone).
    rule_out_reason Hcases Hno.
  - intros Hnone t1. rewrite check_runtime_limit_run, Hcfg, Hnone.
    split; [ reflexivity | ].
    intros t2 r Hr.
    destruct (check_all_limits_cases t1 t2 g) as (r' & Hr' & Hcases).
    assert (r' = r) as -> by congruence.
    assert (Hno : runtime_trips t1 g = false)
      by (unfold runtime_trips; now rewrite Hcfg, Hnone).
    rule_out_reason Hcases Hno.
  - intros Hnone. rewrite check_token_limit_run, Hcfg, Hnone. split; [ reflexivity | ].
    intros t1 t2 r Hr.
    destruct (check_all_limits_cases t1 t2 g) as (r' & Hr' & Hcases).
    assert (r' = r) as -> by congruence.
    assert (Hno : token_trips g = false) by (unfold token_trips; now rewrite Hcfg, Hnone).
    rule_out_reason Hcases Hno.
  - intros Hnone. rewrite check_cost_limit_run, Hcfg, Hnone. split; [ reflexivity | ].
    intros t1 t2 r Hr.
    destruct (check_all_limits_cases t1 t2 g) as (r' & Hr' & Hcases).
    assert (r' = r) as -> by congruence.
    assert (Hno : cost_trips g = false) by (unfold cost_trips; now rewrite Hcfg, Hnone).
    rule_out_reason Hcases Hno.
  - intros H1 H2 H3 H4 t1 t2.
    rewrite check_all_limits_run, check_step_limit_run, check_runtime_limit_run,
      check_token_limit_run, check_cost_limit_run, Hcfg, H1, H2, H3, H4.
    repeat split.
Qed.

(** No limit configured, significant usage: the guard stays within limits. *)
Lemma unset_limit_never_trips_witness :
  exists g,
    calls significant_usage (fresh_guard 0%float "test-execution" no_limits)
    = Returned (tt, g)
    /\ check_all_limits 1%float 1%float g = Returned (within_limits 1%float g, g)
    /\ should_terminate (within_limits 1%float g) = false
    /\ reason (within_limits 1%float g) = "WITHIN_LIMITS".
Proof.
  destruct (unset_limit_never_trips 0%float "test-execution" no_limits
              (fresh_guard 0%float "test-execution" no_limits) significant_usage
              eq_refl) as (g & Hg & _ & _ & _ & _ & Hall).
  exists g. split; [ exact Hg | ].
  apply (Hall eq_refl eq_refl eq_refl eq_refl 1%float 1%float).
Defined.

(** * Counters *)

Lemma call_keeps_counters (c : record_call) (g : ExecutionGuard) :
  counters_nonneg g ->
  exists g',
    call c g = Returned (tt, g') /\
    counters_nonneg g' /\
    step_count g <= step_count g' /\
    token_count g <= token_count g' /\
    PrimFloat.leb (cost_tracker g) (cost_tracker g') = true.
Proof.
  intros (Hs & Ht & Hc).
  pose proof (float_leb_refl _ Hc) as Hrefl.
  destruct c as [ | n | amount ]; cbn [call].
  - rewrite increment_step_run. eexists. split; [ reflexivity | ].
    unfold counters_nonneg. cbn [with_step_count step_count token_count cost_tracker].
    repeat split; try assumption; lia.
  - rewrite add_tokens_run. eexists. split; [ reflexivity | ].
    destruct (Z.ltb_spec 0 n) as [Hn | Hn].
    + unfold counters_nonneg. cbn [with_token_count step_count token_count cost_tracker].
      repeat split; try assumption; lia.
    + unfold counters_nonneg. repeat split; try assumption; lia.
  - rewrite add_cost_run. eexists. split; [ reflexivity | ].
    destruct (PrimFloat.ltb 0%float amount) eqn:Ha.
    + destruct (float_add_pos_ge _ _ Hc Ha) as [Hge Hpos].
      unfold counters_nonneg. cbn [with_cost_tracker step_count token_count cost_tracker].
      repeat split; try assumption; lia.
    + unfold counters_nonneg. repeat split; try assumption; lia.
Qed.

Lemma calls_keep_counters (cs : list record_call) :
  forall g g',
    counters_nonneg g -> calls cs g = Returned (tt, g') -> counters_nonneg g'.
Proof.
  induction cs as [ | c rest IH ]; intros g g' Hg Hrun.
  - cbn [calls] in Hrun. unfold ret in Hrun. congruence.
  - rewrite calls_cons in Hrun.
    destruct (call_keeps_counters c g Hg) as (g1 & Hcall & Hg1 & _).
    rewrite Hcall in Hrun. exact (IH g1 g' Hg1 Hrun).
Qed.

Lemma reachable_counters_nonneg (g : ExecutionGuard) :
  reachable g -> counters_nonneg g.
Proof.
  intros (now & id & cfg & g0 & cs & Hinit & Hrun).
  apply (calls_keep_counters cs g0 g); [ | exact Hrun ].
  unfold __init__ in Hinit. injection Hinit as <-.
  unfold counters_nonneg. cbn [step_count token_count cost_tracker].
  repeat split; lia.
Qed.

(** C7. The counters are non-negative and never decrease: in every state a
    guard can be in, [step_count], [token_count] and [cost_tracker] are
    non-negative, and each call of [increment_step], [add_tokens] or
    [add_cost], with any argument, returns and leaves every counter
    non-negative and at least as large as before. *)
Theorem counters_never_decrease (g : ExecutionGuard) (c : record_call) :
  reachable g ->
  counters_nonneg g
  /\ exists g',
       call c g = Returned (tt, g') /\
       counters_nonneg g' /\
       step_count g <= step_count g' /\
       token_count g <= token_count g' /\
       PrimFloat.leb (cost_tracker g) (cost_tracker g') = true.
Proof.
  intros Hreach. pose proof (reachable_counters_nonneg g Hreach) as Hg.
  split; [ exact Hg | ]. apply call_keeps_counters. exact Hg.
Qed.

(** A report of 0.1 dollars after the usage of [significant_usage]. *)
Lemma counters_never_decrease_witness :
  exists g,
    calls significant_usage (fresh_guard 0%float "test-execution" no_limits)
    = Returned (tt, g)
    /\ counters_nonneg g
    /\ exists g',
         call (AddCost one_tenth) g = Returned (tt, g') /\
         counters_nonneg g' /\
         step_count g <= step_count g' /\
         token_count g <= token_count g' /\
         PrimFloat.leb (cost_tracker g) (cost_tracker g') = true.
Proof.
  destruct (calls_return significant_usage
              (fresh_guard 0%float "test-execution" no_limits)) as (g & Hg & _).
  exists g. split; [ exact Hg | ].
  apply (counters_never_decrease g (AddCost one_tenth)).
  exists 0%float, "test-execution", no_limits,
    (fresh_guard 0%float "test-execution" no_limits), significant_usage.
  split; [ reflexivity | exact Hg ].
Defined.

(** * Read operations *)

Lemma get_stats_run (now : float) (g : ExecutionGuard) :
  get_stats now g =
  Returned ([("execution_id", PyStr (execution_id g));
             ("step_count", PyInt (step_count g));
             ("runtime_ms", PyFloat (runtime_ms now g));
             ("token_count", PyInt (token_count g));
             ("cost_usd", PyFloat (cost_tracker g));
             ("limits", PyDict [("max_steps", py_opt_int (max_steps (config g)));
                                ("max_runtime_ms", py_opt_int (max_runtime_ms (config g)));
                                ("max_tokens", py_opt_int (max_tokens (config g)));
                                ("max_cost_usd", py_opt_float (max_cost_usd (config g)))])],
            g).
Proof. reflexivity. Qed.


(** * Determinism of the aggregate check *)




(** * Accumulated cost *)

Lemma calls_add_cost (amounts : list float) :
  forall g,
    Forall positive_report amounts ->
    calls (map AddCost amounts) g =
    Returned (tt, with_cost_tracker (fold_left PrimFloat.add amounts (cost_tracker g)) g).
Proof.
  induction amounts as [ | a rest IH ]; intros g Hpos.
  - cbn [map calls fold_left]. unfold ret. destruct g; reflexivity.
  - inversion Hpos as [ | a' rest' Ha Hrest ]; subst.
    cbn [map]. rewrite calls_cons. cbn [call]. rewrite add_cost_run, Ha.
    rewrite (IH _ Hrest). reflexivity.
Qed.

Lemma fold_add_ge (amounts : list float) :
  forall acc,
    PrimFloat.leb 0%float acc = true ->
    Forall positive_report amounts ->
    PrimFloat.leb acc (fold_left PrimFloat.add amounts acc) = true.
Proof.
  induction amounts as [ | a rest IH ]; intros acc Hacc Hpos.
  - cbn [fold_left]. apply float_leb_refl. exact Hacc.
  - inversion Hpos as [ | a' rest' Ha Hrest ]; subst. cbn [fold_left].
    destruct (float_add_pos_ge acc a Hacc Ha) as [Hge Hnonneg].
    apply float_leb_trans with (PrimFloat.add acc a); [ exact Hge | ].
    apply IH; assumption.
Qed.

Lemma float_sum_app (prefix suffix : list float) :
  float_sum (prefix ++ suffix)%list = fold_left PrimFloat.add suffix (float_sum prefix).
Proof. unfold float_sum. apply fold_left_app. Qed.

Lemma float_sum_nonneg (amounts : list float) :
  Forall positive_report amounts -> PrimFloat.leb 0%float (float_sum amounts) = true.
Proof.
  intros Hpos. unfold float_sum. apply fold_add_ge; [ reflexivity | exact Hpos ].
Qed.

(** C9, as the code has it.  After any sequence of positive cost reports on
    a fresh guard, [cost_tracker] is their sum as binary64 arithmetic
    accumulates it, one rounded addition per report in report order, and
    [check_cost_limit] trips exactly when that accumulated value is greater
    than or equal to [max_cost_usd].  Once the accumulated value has reached
    the ceiling, further positive reports keep the check tripped. *)
Theorem cost_limit_trips_on_accumulated_float_sum
    (now : float) (id : string) (cfg : ExecutionLimitConfig) (g0 : ExecutionGuard)
    (limit : float) (amounts : list float) :
  __init__ now id cfg = Returned g0 ->
  max_cost_usd cfg = Some limit ->
  Forall positive_report amounts ->
  exists g,
    calls (map AddCost amounts) g0 = Returned (tt, g)
    /\ cost_tracker g = float_sum amounts
    /\ (PrimFloat.leb limit (float_sum amounts) = true ->
        exists r, check_cost_limit g = Returned (Some r, g) /\
                  should_terminate r = true /\ reason r = "COST_LIMIT_EXCEEDED")
    /\ (PrimFloat.leb limit (float_sum amounts) = false ->
        check_cost_limit g = Returned (None, g))
    /\ (forall prefix suffix : list float,
          amounts = (prefix ++ suffix)%list ->
          PrimFloat.leb limit (float_sum prefix) = true ->
          PrimFloat.leb limit (float_sum amounts) = true).
Proof.
  intros Hinit Hlimit Hpos. unfold __init__ in Hinit. injection Hinit as <-.
  eexists. split; [ apply calls_add_cost; exact Hpos | ].
  cbn [with_cost_tracker cost_tracker]. fold (float_sum amounts).
  split; [ reflexivity | ].
  split; [ | split ].
  - intros Hge. rewrite check_cost_limit_run.
    cbn [with_cost_tracker config cost_tracker]. fold (float_sum amounts).
    rewrite Hlimit, Hge. eexists. repeat split.
  - intros Hlt. rewrite check_cost_limit_run.
    cbn [with_cost_tracker config cost_tracker]. fold (float_sum amounts).
    rewrite Hlimit, Hlt. reflexivity.
  - intros prefix suffix -> Hreached.
    apply Forall_app in Hpos. destruct Hpos as [Hpre Hsuf].
    apply float_leb_trans with (float_sum prefix); [ exact Hreached | ].
    rewrite float_sum_app. apply fold_add_ge; [ | exact Hsuf ].
    apply float_sum_nonneg. exact Hpre.
Qed.

(** Reports of 0.5 and 0.5 dollars against a ceiling of 1 dollar. *)
Lemma cost_limit_trips_on_accumulated_float_sum_witness :
  exists g,
    calls (map AddCost [0.5%float; 0.5%float]) (fresh_guard 0%float "run" one_dollar_config)
    = Returned (tt, g)
    /\ cost_tracker g = 1%float
    /\ exists r, check_cost_limit g = Returned (Some r, g) /\
                 should_terminate r = true /\ reason r = "COST_LIMIT_EXCEEDED".
Proof.
  destruct (cost_limit_trips_on_accumulated_float_sum 0%float "run" one_dollar_config
              (fresh_guard 0%float "run" one_dollar_config) 1%float
              [0.5%float; 0.5%float] eq_refl eq_refl)
    as (g & Hrun & Hsum & Htrip & _).
  { repeat constructor. }
  exists g. split; [ exact Hrun | ]. split; [ exact Hsum | ].
  apply Htrip. reflexivity.
Defined.

(** C9 as stated fails.  Ten reports of [0.1] against a ceiling of [1.0]:
    every report is positive and finite, their exact sum is at least [1],
    and yet the accumulated [cost_tracker] is [0.9999999999999999] and
    [check_cost_limit] returns [None]. *)
Lemma rounding_misses_the_ceiling :
  Forall positive_report ten_dimes
  /\ (exists q, exact_sum ten_dimes = Some q /\ (1 <= q)%Q)
  /\ exists g,
       calls (map AddCost ten_dimes) (fresh_guard 0%float "run" one_dollar_config)
       = Returned (tt, g)
       /\ cost_tracker g = 0.9999999999999999%float
       /\ check_cost_limit g = Returned (None, g).
Proof.
  split; [ | split ].
  - repeat constructor.
  - eexists. split; [ vm_compute; reflexivity | ].
    unfold Qle. vm_compute. discriminate.
  - eexists. split; [ vm_compute; reflexivity | ].
    split; vm_compute; reflexivity.
Qed.

(** * The test suite, replayed

    The cases of [test_execution_guard.py], with [time.time()] read as 0 at
    construction. *)

Example test_step_limit_exceeded :
  let guard := fresh_guard 0%float "test-execution"
                 {| max_steps := Some 3; max_runtime_ms := None;
                    max_tokens := None; max_cost_usd := None |} in
  verdict ((calls (repeat IncrementStep 1) ;; check_step_limit) guard) = None
  /\ verdict ((calls (repeat IncrementStep 2) ;; check_step_limit) guard) = None
  /\ verdict ((calls (repeat IncrementStep 3) ;; check_step_limit) guard) = None
  /\ verdict ((calls (repeat IncrementStep 4) ;; check_step_limit) guard)
     = Some {| should_terminate := true;
               reason := "STEP_LIMIT_EXCEEDED";
               details := [("step_count", PyInt 4); ("max_steps", PyInt 3)] |}.
Proof. repeat split. Qed.

Example test_runtime_limit_exceeded :
  let guard := fresh_guard 0%float "test-execution"
                 {| max_steps := None; max_runtime_ms := Some 100;
                    max_tokens := None; max_cost_usd := None |} in
  verdict (check_runtime_limit 0%float guard) = None
  /\ verdict (check_runtime_limit 0.15%float guard)
     = Some {| should_terminate := true;
               reason := "TIME_LIMIT_EXCEEDED";
               details := [("current_runtime_ms", PyFloat 150%float);
                           ("max_runtime_ms", PyInt 100)] |}.
Proof. split; vm_compute; reflexivity. Qed.

Example test_token_limit_exceeded :
  let guard := fresh_guard 0%float "test-execution"
                 {| max_steps := None; max_runtime_ms := None;
                    max_tokens := Some 100; max_cost_usd := None |} in
  verdict ((calls [AddTokens 99] ;; check_token_limit) guard) = None
  /\ verdict ((calls [AddTokens 99; AddTokens 2] ;; check_token_limit) guard)
     = Some {| should_terminate := true;
               reason := "TOKEN_LIMIT_EXCEEDED";
               details := [("token_count", PyInt 101); ("max_tokens", PyInt 100)] |}.
Proof. split; reflexivity. Qed.

Example test_cost_limit_exceeded :
  let guard := fresh_guard 0%float "test-execution"
                 {| max_steps := None; max_runtime_ms := None;
                    max_tokens := None; max_cost_usd := Some 1%float |} in
  verdict ((calls [AddCost 0.99%float] ;; check_cost_limit) guard) = None
  /\ verdict ((calls [AddCost 0.99%float; AddCost 0.02%float] ;; check_cost_limit) guard)
     = Some {| should_terminate := true;
               reason := "COST_LIMIT_EXCEEDED";
               details := [("current_cost_usd", PyFloat 1.01%float);
                           ("max_cost_usd", PyFloat 1%float)] |}.
Proof. split; vm_compute; reflexivity. Qed.

Example test_all_checks_passed :
  let guard := fresh_guard 0%float "test-execution"
                 {| max_steps := Some 100; max_runtime_ms := Some 10000;
                    max_tokens := Some 1000; max_cost_usd := Some 10%float |} in
  exists g,
    (calls [IncrementStep; AddTokens 50; AddCost 0.5%float]
     ;; check_all_limits 0.001%float 0.001%float) guard
    = Returned ({| should_terminate := false;
                   reason := "WITHIN_LIMITS";
                   details := [("step_count", PyInt 1);
                               ("runtime_ms", PyFloat 1%float);
                               ("token_count", PyInt 50);
                               ("cost_usd", PyFloat 0.5%float)] |}, g).
Proof. eexists. vm_compute. reflexivity. Qed.

Example test_get_stats :
  let guard := fresh_guard 0%float "test-execution"
                 {| max_steps := Some 100; max_runtime_ms := Some 1000;
                    max_tokens := None; max_cost_usd := None |} in
  exists g,
    (calls [IncrementStep; AddTokens 25; AddCost 0.25%float] ;; get_stats 0.001%float) guard
    = Returned ([("execution_id", PyStr "test-execution");
                 ("step_count", PyInt 1);
                 ("runtime_ms", PyFloat 1%float);
                 ("token_count", PyInt 25);
                 ("cost_usd", PyFloat 0.25%float);
                 ("limits", PyDict [("max_steps", PyInt 100);
                                    ("max_runtime_ms", PyInt 1000);
                                    ("max_tokens", PyNone);
                                    ("max_cost_usd", PyNone)])], g).
Proof. eexists. vm_compute. reflexivity. Qed.

(** * Sequences of calls in closed form *)

(** What a sequence of calls leaves behind. *)
Lemma calls_run (cs : list record_call) :
  forall g,
    calls cs g =
    Returned (tt, {| execution_id := execution_id g;
                     config := config g;
                     start_time := start_time g;
                     step_count := step_count g + steps_in cs;
                     token_count := token_count g + tokens_in cs;
                     cost_tracker :=
                       fold_left PrimFloat.add (costs_in cs) (cost_tracker g) |}).
Proof.
  induction cs as [ | c rest IH ]; intros g.
  - cbn [calls steps_in tokens_in costs_in fold_left]. unfold ret.
    rewrite !Z.add_0_r. destruct g; reflexivity.
  - rewrite calls_cons. destruct c as [ | n | amount ]; cbn [call].
    + rewrite increment_step_run, IH.
      cbn [with_step_count execution_id config start_time step_count token_count
           cost_tracker steps_in tokens_in costs_in].
      do 3 f_equal. lia.
    + rewrite add_tokens_run, IH. cbn [steps_in tokens_in costs_in].
      destruct (0 <? n);
        cbn [with_token_count execution_id config start_time step_count token_count
             cost_tracker]; do 3 f_equal; lia.
    + rewrite add_cost_run, IH. cbn [steps_in tokens_in costs_in].
      destruct (PrimFloat.ltb 0%float amount);
        cbn [with_cost_tracker execution_id config start_time step_count token_count
             cost_tracker fold_left]; reflexivity.
Qed.

(** X1. Whatever the state, a sequence of usage reports returns and leaves
    the guard with [step_count] raised by the number of [increment_step]
    calls, [token_count] raised by the sum of the positive token reports,
    [cost_tracker] extended by the positive cost reports, one binary64
    addition each in call order, and the identifier, the configuration and
    the start time as they were. *)
Theorem calls_closed_form (cs : list record_call) (g : ExecutionGuard) :
  calls cs g =
  Returned (tt, {| execution_id := execution_id g;
                   config := config g;
                   start_time := start_time g;
                   step_count := step_count g + steps_in cs;
                   token_count := token_count g + tokens_in cs;
                   cost_tracker :=
                     fold_left PrimFloat.add (costs_in cs) (cost_tracker g) |}).
Proof. apply calls_run. Qed.




Lemma steps_in_perm (cs cs' : list record_call) :
  Permutation cs cs' -> steps_in cs = steps_in cs'.
Proof.
  induction 1 as [ | c l l' _ IH | c c' l | l l' l'' _ IH1 _ IH2 ].
  - reflexivity.
  - destruct c; cbn [steps_in]; lia.
  - destruct c, c'; cbn [steps_in]; lia.
  - congruence.
Qed.

Lemma tokens_in_perm (cs cs' : list record_call) :
  Permutation cs cs' -> tokens_in cs = tokens_in cs'.
Proof.
  induction 1 as [ | c l l' _ IH | c c' l | l l' l'' _ IH1 _ IH2 ].
  - reflexivity.
  - destruct c; cbn [tokens_in]; lia.
  - destruct c, c'; cbn [tokens_in]; lia.
  - congruence.
Qed.

(** X2. The order of the reports matters for cost only.  Two sequences of
    calls that are permutations of each other leave the same [step_count]
    and [token_count], hence the same verdicts of the step and token checks.
    The accumulated cost can differ: 0.1, 0.2, 0.3 add up to
    0.6000000000000001 and trip a ceiling of that amount, while 0.2, 0.3,
    0.1 add up to 0.6 and do not. *)
Theorem report_order_matters_for_cost_only :
  (forall cs cs' g,
      Permutation cs cs' ->
      exists g1 g2,
        calls cs g = Returned (tt, g1) /\
        calls cs' g = Returned (tt, g2) /\
        step_count g1 = step_count g2 /\
        token_count g1 = token_count g2 /\
        verdict (check_step_limit g1) = verdict (check_step_limit g2) /\
        verdict (check_token_limit g1) = verdict (check_token_limit g2))
  /\ Permutation dimes_ascending dimes_rotated
  /\ exists g1 g2,
       calls dimes_ascending (fresh_guard 0%float "run" sixty_cents_config)
       = Returned (tt, g1) /\
       calls dimes_rotated (fresh_guard 0%float "run" sixty_cents_config)
       = Returned (tt, g2) /\
       cost_tracker g1 = 0.6000000000000001%float /\
       cost_tracker g2 = 0.6%float /\
       verdict (check_cost_limit g1) <> None /\
       verdict (check_cost_limit g2) = None.
Proof.
  split; [ | split ].
  - intros cs cs' g Hperm. do 2 eexists.
    split; [ apply calls_run | ]. split; [ apply calls_run | ].
    rewrite !check_step_limit_run, !check_token_limit_run.
    cbn [verdict config step_count token_count].
    rewrite (steps_in_perm _ _ Hperm), (tokens_in_perm _ _ Hperm).
    repeat split.
  - apply (Permutation_cons_append [AddCost 0.2%float; AddCost 0.3%float]
             (AddCost 0.1%float)).
  - do 2 eexists.
    split; [ vm_compute; reflexivity | ]. split; [ vm_compute; reflexivity | ].
    split; [ vm_compute; reflexivity | ]. split; [ vm_compute; reflexivity | ].
    split; vm_compute; [ discriminate | reflexivity ].
Qed.

(** Tokens reported as 40, 70 and as 70, 40. *)
Lemma report_order_matters_for_cost_only_witness :
  exists g1 g2,
    calls [AddTokens 40; AddTokens 70] guard_at_limits = Returned (tt, g1) /\
    calls [AddTokens 70; AddTokens 40] guard_at_limits = Returned (tt, g2) /\
    step_count g1 = step_count g2 /\
    token_count g1 = token_count g2 /\
    verdict (check_step_limit g1) = verdict (check_step_limit g2) /\
    verdict (check_token_limit g1) = verdict (check_token_limit g2).
Proof.
  apply (proj1 report_order_matters_for_cost_only). apply perm_swap.
Defined.

(** X3. Tokens accumulate without loss.  After any sequence of calls on a
    fresh guard with [max_tokens] set, [token_count] is the exact sum of the
    positive token reports, and [check_token_limit] trips exactly when that
    sum has reached the ceiling. *)
Theorem token_limit_trips_on_exact_sum
    (now : float) (id : string) (cfg : ExecutionLimitConfig) (g0 : ExecutionGuard)
    (limit : Z) (cs : list record_call) :
  __init__ now id cfg = Returned g0 ->
  max_tokens cfg = Some limit ->
  exists g,
    calls cs g0 = Returned (tt, g)
    /\ token_count g = tokens_in cs
    /\ (limit <= tokens_in cs ->
        exists r, check_token_limit g = Returned (Some r, g) /\
                  should_terminate r = true /\
                  reason r = "TOKEN_LIMIT_EXCEEDED" /\
                  dict_get (details r) "token_count" = Some (PyInt (tokens_in cs)) /\
                  dict_get (details r) "max_tokens" = Some (PyInt limit))
    /\ (tokens_in cs < limit -> check_token_limit g = Returned (None, g)).
Proof.
  intros Hinit Hlimit. unfold __init__ in Hinit. injection Hinit as <-.
  eexists. split; [ apply calls_run | ].
  cbn [token_count]. split; [ lia | ].
  rewrite check_token_limit_run. cbn [config token_count]. rewrite Hlimit.
  replace (0 + tokens_in cs) with (tokens_in cs) by lia.
  split; intros Hcmp.
  - rewrite (proj2 (Z.leb_le _ _) Hcmp). eexists. repeat split.
  - rewrite (proj2 (Z.leb_gt _ _) Hcmp). reflexivity.
Qed.

(** The test suite's reports of 99 and 2 tokens, with a correction of -50 in
    between that is dropped, against a ceiling of 100. *)
Lemma token_limit_trips_on_exact_sum_witness :
  exists g r,
    calls [AddTokens 99; AddTokens (-50); AddTokens 2]
      (fresh_guard 0%float "test-execution" four_limits) = Returned (tt, g)
    /\ token_count g = 101
    /\ check_token_limit g = Returned (Some r, g)
    /\ reason r = "TOKEN_LIMIT_EXCEEDED".
Proof.
  destruct (token_limit_trips_on_exact_sum 0%float "test-execution" four_limits
              (fresh_guard 0%float "test-execution" four_limits) 100
              [AddTokens 99; AddTokens (-50); AddTokens 2] eq_refl eq_refl)
    as (g & Hrun & Hcount & Htrip & _).
  destruct Htrip as (r & Hr & _ & Hreason & _); [ cbn; lia | ].
  exists g, r. repeat split; assumption.
Defined.

(** * Verdicts over time *)






(** * What the aggregate outcome tells *)


(** X6. The details of a terminating outcome justify its reason: they hold
    the current value and the configured ceiling of the reported dimension,
    and the current value is past the ceiling by that dimension's
    comparison. *)
Theorem termination_details_justify_reason
    (t1 t2 : float) (g : ExecutionGuard) (r : ExecutionGuardResult) :
  check_all_limits t1 t2 g = Returned (r, g) ->
  should_terminate r = true ->
  (reason r = "STEP_LIMIT_EXCEEDED" /\
   exists limit,
     max_steps (config g) = Some limit /\ limit < step_count g /\
     details r = [("step_count", PyInt (step_count g)); ("max_steps", PyInt limit)])
  \/ (reason r = "TIME_LIMIT_EXCEEDED" /\
      exists limit,
        max_runtime_ms (config g) = Some limit /\
        float_ge_int (runtime_ms t1 g) limit = true /\
        details r = [("current_runtime_ms", PyFloat (runtime_ms t1 g));
                     ("max_runtime_ms", PyInt limit)])
  \/ (reason r = "TOKEN_LIMIT_EXCEEDED" /\
      exists limit,
        max_tokens (config g) = Some limit /\ limit <= token_count g /\
        details r = [("token_count", PyInt (token_count g));
                     ("max_tokens", PyInt limit)])
  \/ (reason r = "COST_LIMIT_EXCEEDED" /\
      exists limit,
        max_cost_usd (config g) = Some limit /\
        PrimFloat.leb limit (cost_tracker g) = true /\
        details r = [("current_cost_usd", PyFloat (cost_tracker g));
                     ("max_cost_usd", PyFloat limit)]).
Proof.
  rewrite check_all_limits_run, check_step_limit_run, check_runtime_limit_run,
    check_token_limit_run, check_cost_limit_run. cbn [verdict].
  intros [= <-].
  destruct (max_steps (config g)) as [ ls | ] eqn:Els.
  1: destruct (Z.ltb_spec ls (step_count g)) as [ Hs | Hs ].
  1: { intros _. left. split; [ reflexivity | ]. exists ls. repeat split. exact Hs. }
  all: destruct (max_runtime_ms (config g)) as [ lr | ] eqn:Elr.
  all: try destruct (float_ge_int (runtime_ms t1 g) lr) eqn:Hrt.
  all: try (intros _; right; left; split; [ reflexivity | ];
            exists lr; repeat split; exact Hrt).
  all: destruct (max_tokens (config g)) as [ lt | ] eqn:Elt.
  all: try destruct (Z.leb_spec lt (token_count g)) as [ Ht | Ht ].
  all: try (intros _; do 2 right; left; split; [ reflexivity | ];
            exists lt; repeat split; exact Ht).
  all: destruct (max_cost_usd (config g)) as [ lc | ] eqn:Elc.
  all: try destruct (PrimFloat.leb lc (cost_tracker g)) eqn:Hc.
  all: try (intros _; do 3 right; split; [ reflexivity | ];
            exists lc; repeat split; exact Hc).
  all: cbn; discriminate.
Qed.

(** [guard_past_limits] one second after its start: the step limit is
    reported, with 4 steps of 3. *)
Lemma termination_details_justify_reason_witness :
  reason {| should_terminate := true;
            reason := "STEP_LIMIT_EXCEEDED";
            details := [("step_count", PyInt 4); ("max_steps", PyInt 3)] |}
  = "STEP_LIMIT_EXCEEDED"
  /\ exists limit,
       max_steps (config guard_past_limits) = Some limit /\
       limit < step_count guard_past_limits /\
       [("step_count", PyInt 4); ("max_steps", PyInt 3)]
       = [("step_count", PyInt (step_count guard_past_limits));
          ("max_steps", PyInt limit)].
Proof.
  destruct (termination_details_justify_reason 1%float 1%float guard_past_limits
              {| should_terminate := true;
                 reason := "STEP_LIMIT_EXCEEDED";
                 details := [("step_count", PyInt 4); ("max_steps", PyInt 3)] |}
              eq_refl eq_refl)
    as [ H | [ (H & _) | [ (H & _) | (H & _) ] ] ];
    [ exact H | discriminate H | discriminate H | discriminate H ].
Defined.

(** * Statistics *)

(** X7. The statistics agree with the within-limits outcome: every entry of
    the details of a within-limits outcome appears, under the same key and
    with the same value, in the statistics taken at the same clock
    reading. *)
Theorem stats_contain_within_limits_details
    (t now : float) (g : ExecutionGuard) (r : ExecutionGuardResult) (stats : pydict) :
  check_all_limits t now g = Returned (r, g) ->
  should_terminate r = false ->
  get_stats now g = Returned (stats, g) ->
  forall key v, dict_get (details r) key = Some v -> dict_get stats key = Some v.
Proof.
  intros Hcheck Hgo Hstats key v Hkey.
  destruct (check_all_limits_cases t now g) as (r0 & Hr0 & Hcases).
  assert (r0 = r) as -> by congruence.
  destruct Hcases as [ (_ & Hstop & _) | [ (_ & _ & Hstop & _)
    | [ (_ & _ & _ & Hstop & _) | [ (_ & _ & _ & _ & Hstop & _)
    | (_ & _ & _ & _ & ->) ] ] ] ]; try congruence.
  rewrite get_stats_run in Hstats. injection Hstats as <-.
  cbn [within_limits details dict_get] in Hkey.
  destruct (String.eqb_spec "step_count" key) as [ <- | _ ];
    [ injection Hkey as <-; reflexivity | ].
  destruct (String.eqb_spec "runtime_ms" key) as [ <- | _ ];
    [ injection Hkey as <-; reflexivity | ].
  destruct (String.eqb_spec "token_count" key) as [ <- | _ ];
    [ injection Hkey as <-; reflexivity | ].
  destruct (String.eqb_spec "cost_usd" key) as [ <- | _ ];
    [ injection Hkey as <-; reflexivity | ].
  discriminate Hkey.
Qed.

(** A fresh guard without limits, one millisecond after its start: the
    runtime of the within-limits outcome is in the statistics. *)
Lemma stats_contain_within_limits_details_witness :
  dict_get [("execution_id", PyStr "test-execution");
            ("step_count", PyInt 0);
            ("runtime_ms", PyFloat 1%float);
            ("token_count", PyInt 0);
            ("cost_usd", PyFloat 0%float);
            ("limits", PyDict [("max_steps", PyNone); ("max_runtime_ms", PyNone);
                               ("max_tokens", PyNone); ("max_cost_usd", PyNone)])]
    "runtime_ms"
  = Some (PyFloat 1%float).
Proof.
  apply (stats_contain_within_limits_details 0.001%float 0.001%float
           (fresh_guard 0%float "test-execution" no_limits)
           (within_limits 0.001%float (fresh_guard 0%float "test-execution" no_limits))
           _ eq_refl eq_refl eq_refl "runtime_ms").
  reflexivity.
Defined.

(** X8. The statistics are accurate after any usage: taken after any
    sequence of calls on a fresh guard, they show the identifier and the
    four limits that were given to the constructor, an unset limit as
    [None], the number of steps, the sum of the positive token reports, the
    accumulated positive cost reports and the runtime at the reading. *)
Theorem stats_after_calls
    (now : float) (id : string) (cfg : ExecutionLimitConfig) (g0 : ExecutionGuard)
    (cs : list record_call) (t : float) :
  __init__ now id cfg = Returned g0 ->
  exists g stats,
    (calls cs ;; get_stats t) g0 = Returned (stats, g) /\
    dict_get stats "execution_id" = Some (PyStr id) /\
    dict_get stats "step_count" = Some (PyInt (steps_in cs)) /\
    dict_get stats "runtime_ms"
    = Some (PyFloat (PrimFloat.mul (PrimFloat.sub t now) 1000%float)) /\
    dict_get stats "token_count" = Some (PyInt (tokens_in cs)) /\
    dict_get stats "cost_usd" = Some (PyFloat (float_sum (costs_in cs))) /\
    dict_get stats "limits"
    = Some (PyDict [("max_steps", py_opt_int (max_steps cfg));
                    ("max_runtime_ms", py_opt_int (max_runtime_ms cfg));
                    ("max_tokens", py_opt_int (max_tokens cfg));
                    ("max_cost_usd", py_opt_float (max_cost_usd cfg))]).
Proof.
  intros Hinit. unfold __init__ in Hinit. injection Hinit as <-.
  unfold bind. rewrite calls_run, get_stats_run.
  do 2 eexists. split; [ reflexivity | ].
  cbn [execution_id config start_time step_count token_count cost_tracker].
  repeat split.
Qed.

(** The usage of the test suite's statistics test, with a dropped token
    report added. *)
Lemma stats_after_calls_witness :
  exists g stats,
    (calls [IncrementStep; AddTokens 25; AddTokens 0; AddCost 0.25%float]
     ;; get_stats 0.001%float)
      (fresh_guard 0%float "test-execution" four_limits) = Returned (stats, g) /\
    dict_get stats "step_count" = Some (PyInt 1) /\
    dict_get stats "token_count" = Some (PyInt 25) /\
    dict_get stats "cost_usd" = Some (PyFloat 0.25%float).
Proof.
  destruct (stats_after_calls 0%float "test-execution" four_limits
              (fresh_guard 0%float "test-execution" four_limits)
              [IncrementStep; AddTokens 25; AddTokens 0; AddCost 0.25%float]
              0.001%float eq_refl)
    as (g & stats & Hrun & _ & Hsteps & _ & Htokens & Hcost & _).
  exists g, stats. repeat split; assumption.
Defined.

(** * The instant of construction *)

(** A float minus itself is [+0.0] when it is finite, NaN otherwise. *)
Lemma float_sub_self (x : float) :
  Prim2SF (PrimFloat.sub x x)
  = if finite_float x then S754_zero false else S754_nan.
Proof.
  rewrite sub_spec. unfold finite_float, SF64sub.
  destruct (Prim2SF x) as [ [ | ] | [ | ] | | s m e ]; try reflexivity.
  cbn [SFsub]. rewrite Z.sub_diag. reflexivity.
Qed.

(** The runtime read at the very clock reading of the start. *)
Lemma runtime_ms_at_start (now : float) (id : string) (cfg : ExecutionLimitConfig) :
  Prim2SF (runtime_ms now (fresh_guard now id cfg))
  = if finite_float now then S754_zero false else S754_nan.
Proof.
  unfold runtime_ms. cbn [fresh_guard start_time].
  rewrite mul_spec, float_sub_self.
  destruct (finite_float now); reflexivity.
Qed.

(** X9. At the instant of its construction a guard trips exactly on the
    ceilings that leave no room: a negative [max_steps], a zero or negative
    [max_runtime_ms] (the clock reading being finite), a zero or negative
    [max_tokens], a zero or negative [max_cost_usd].  A [max_steps] of zero
    does not trip before the first step. *)
Theorem fresh_guard_thresholds
    (now : float) (id : string) (cfg : ExecutionLimitConfig) (g0 : ExecutionGuard) :
  __init__ now id cfg = Returned g0 ->
  (forall limit, max_steps cfg = Some limit ->
     verdict (check_step_limit g0) <> None <-> limit < 0)
  /\ (forall limit, max_runtime_ms cfg = Some limit ->
      finite_float now = true ->
      verdict (check_runtime_limit now g0) <> None <-> limit <= 0)
  /\ (forall limit, max_tokens cfg = Some limit ->
      verdict (check_token_limit g0) <> None <-> limit <= 0)
  /\ (forall limit, max_cost_usd cfg = Some limit ->
      verdict (check_cost_limit g0) <> None <-> PrimFloat.leb limit 0%float = true).
Proof.
  intros Hinit. unfold __init__ in Hinit. injection Hinit as <-.
  fold (fresh_guard now id cfg).
  split; [ | split; [ | split ] ].
  - intros limit Hlimit. rewrite check_step_limit_run.
    cbn [verdict fresh_guard config step_count]. rewrite Hlimit.
    destruct (Z.ltb_spec limit 0); split; intros H'; try lia; congruence.
  - intros limit Hlimit Hfinite. rewrite check_runtime_limit_run.
    cbn [verdict]. change (config (fresh_guard now id cfg)) with cfg. rewrite Hlimit.
    unfold float_ge_int. rewrite runtime_ms_at_start, Hfinite. cbn [sf_ge_int].
    destruct (Z.leb_spec limit 0); split; intros H'; try lia; congruence.
  - intros limit Hlimit. rewrite check_token_limit_run.
    cbn [verdict fresh_guard config token_count]. rewrite Hlimit.
    destruct (Z.leb_spec limit 0); split; intros H'; try lia; congruence.
  - intros limit Hlimit. rewrite check_cost_limit_run.
    cbn [verdict fresh_guard config cost_tracker]. rewrite Hlimit.
    destruct (PrimFloat.leb limit 0%float); split; intros H'; congruence.
Qed.

(** Ceilings of zero everywhere: every check but the step check trips on the
    fresh guard. *)
Lemma fresh_guard_thresholds_witness :
  (verdict (check_step_limit (fresh_guard 1%float "run" all_zero_limits)) <> None
   <-> 0 < 0)
  /\ (verdict (check_runtime_limit 1%float (fresh_guard 1%float "run" all_zero_limits))
      <> None <-> 0 <= 0)
  /\ (verdict (check_token_limit (fresh_guard 1%float "run" all_zero_limits)) <> None
      <-> 0 <= 0)
  /\ (verdict (check_cost_limit (fresh_guard 1%float "run" all_zero_limits)) <> None
      <-> PrimFloat.leb 0%float 0%float = true).
Proof.
  destruct (fresh_guard_thresholds 1%float "run" all_zero_limits
              (fresh_guard 1%float "run" all_zero_limits) eq_refl)
    as (Hs & Hr & Ht & Hc).
  split; [ exact (Hs 0 eq_refl) | ].
  split; [ exact (Hr 0 eq_refl eq_refl) | ].
  split; [ exact (Ht 0 eq_refl) | exact (Hc 0%float eq_refl) ].
Defined.

(** * NaN and infinity *)

Lemma float_leb_nan_l (c : float) : PrimFloat.leb nan c = false.
Proof. rewrite leb_spec. reflexivity. Qed.

Lemma float_not_nan (x : float) : x <> nan -> Prim2SF x <> S754_nan.
Proof.
  intros Hx Hsf. apply Hx. apply Prim2SF_inj. rewrite Hsf. reflexivity.
Qed.

Lemma float_add_infinity (c : float) :
  PrimFloat.leb 0%float c = true -> PrimFloat.add c infinity = infinity.
Proof.
  rewrite leb_spec, Prim2SF_zero. intros Hc.
  apply Prim2SF_inj. rewrite add_spec. change (Prim2SF infinity) with (S754_infinity false).
  unfold SF64add.
  destruct (Prim2SF c) as [ s | [ | ] | | [ | ] m e ];
    try discriminate Hc; reflexivity.
Qed.

Lemma float_leb_infinity (x : float) : x <> nan -> PrimFloat.leb x infinity = true.
Proof.
  intros Hx. apply float_not_nan in Hx. rewrite leb_spec.
  change (Prim2SF infinity) with (S754_infinity false).
  destruct (Prim2SF x) as [ s | [ | ] | | [ | ] m e ]; try reflexivity.
  congruence.
Qed.

(** X10. NaN and infinity.  A cost report of NaN is dropped like a
    non-positive one.  A [max_cost_usd] of NaN never trips, whatever the
    accumulated cost.  A cost report of infinity, in a state the guard can
    be in, sets [cost_tracker] to infinity, and the cost check then trips
    for every ceiling other than NaN. *)
Theorem nan_and_infinity_costs :
  (forall g, add_cost nan g = Returned (tt, g))
  /\ (forall g, max_cost_usd (config g) = Some nan ->
                check_cost_limit g = Returned (None, g))
  /\ (forall g limit,
        reachable g ->
        max_cost_usd (config g) = Some limit ->
        limit <> nan ->
        exists g' r,
          add_cost infinity g = Returned (tt, g') /\
          cost_tracker g' = infinity /\
          check_cost_limit g' = Returned (Some r, g') /\
          reason r = "COST_LIMIT_EXCEEDED").
Proof.
  split; [ | split ].
  - intros g. rewrite add_cost_run. reflexivity.
  - intros g Hnan. rewrite check_cost_limit_run, Hnan, float_leb_nan_l. reflexivity.
  - intros g limit Hreach Hlimit Hnot_nan.
    destruct (reachable_counters_nonneg g Hreach) as (_ & _ & Hc).
    rewrite add_cost_run. change (PrimFloat.ltb 0%float infinity) with true.
    cbn iota. rewrite (float_add_infinity _ Hc).
    do 2 eexists. split; [ reflexivity | ]. split; [ reflexivity | ].
    rewrite check_cost_limit_run. cbn [with_cost_tracker config cost_tracker].
    rewrite Hlimit, (float_leb_infinity _ Hnot_nan). split; reflexivity.
Qed.

(** A report of infinity on a fresh guard with a ceiling of one dollar. *)
Lemma nan_and_infinity_costs_witness :
  exists g' r,
    add_cost infinity (fresh_guard 0%float "run" one_dollar_config) = Returned (tt, g') /\
    cost_tracker g' = infinity /\
    check_cost_limit g' = Returned (Some r, g') /\
    reason r = "COST_LIMIT_EXCEEDED".
Proof.
  apply (proj2 (proj2 nan_and_infinity_costs)
           (fresh_guard 0%float "run" one_dollar_config) 1%float).
  - exists 0%float, "run", one_dollar_config,
      (fresh_guard 0%float "run" one_dollar_config), []. split; reflexivity.
  - reflexivity.
  - intros H. apply (f_equal Prim2SF) in H. vm_compute in H. discriminate H.
Defined.

(** * Independence of the dimensions *)

(** X11. A usage report changes the verdict of its own dimension at most:
    no call changes the verdict of the runtime check at a given clock
    reading; a call other than [increment_step] leaves the verdict of the
    step check as it was, a call other than [add_tokens] that of the token
    check, and a call other than [add_cost] that of the cost check. *)
Theorem dimensions_are_independent (g : ExecutionGuard) (c : record_call) (t : float) :
  exists g',
    call c g = Returned (tt, g')
    /\ verdict (check_runtime_limit t g') = verdict (check_runtime_limit t g)
    /\ (c <> IncrementStep ->
        verdict (check_step_limit g') = verdict (check_step_limit g))
    /\ ((forall n, c <> AddTokens n) ->
        verdict (check_token_limit g') = verdict (check_token_limit g))
    /\ ((forall amount, c <> AddCost amount) ->
        verdict (check_cost_limit g') = verdict (check_cost_limit g)).
Proof.
  rewrite !check_runtime_limit_run, !check_step_limit_run, !check_token_limit_run,
    !check_cost_limit_run.
  destruct c as [ | n | amount ]; cbn [call].
  - rewrite increment_step_run. eexists. split; [ reflexivity | ].
    rewrite !check_runtime_limit_run, !check_step_limit_run, !check_token_limit_run,
      !check_cost_limit_run.
    repeat split. intros H. congruence.
  - rewrite add_tokens_run. eexists. split; [ reflexivity | ].
    rewrite !check_runtime_limit_run, !check_step_limit_run, !check_token_limit_run,
      !check_cost_limit_run.
    destruct (0 <? n); repeat split. intros H. specialize (H n). congruence.
  - rewrite add_cost_run. eexists. split; [ reflexivity | ].
    rewrite !check_runtime_limit_run, !check_step_limit_run, !check_token_limit_run,
      !check_cost_limit_run.
    destruct (PrimFloat.ltb 0%float amount); repeat split.
    intros H. specialize (H amount). congruence.
Qed.

(** * Rounding is monotone *)

Section Monotone.
Variables prec emax : Z.
Hypothesis prec_gt_1 : 1 < prec.

Abbreviation fexp := (SpecFloat.fexp prec emax).
Abbreviation emin := (SpecFloat.emin prec emax).


Lemma shr_1_shifted (M a : Z) (r : shr_record) :
  0 < a -> shifted_by M a r -> shifted_by M (2 * a) (shr_1 r).
Proof.
  intros Ha (rem & HM & Hrem & Hm & Hr & Hs).
  destruct r as [m rb sb]. cbn [shr_m shr_r shr_s] in *.
  assert (Hcases : (m = 2 * (m / 2) /\ Z.odd m = false) \/ (m = 2 * (m / 2) + 1 /\ Z.odd m = true)).
  { pose proof (Z.div_mod m 2 ltac:(lia)) as Hdm.
    rewrite Zmod_odd in Hdm. destruct (Z.odd m); [ right | left ]; split; lia || reflexivity. }
  assert (Hshape : shr_1 {| shr_m := m; shr_r := rb; shr_s := sb |}
                   = {| shr_m := m / 2; shr_r := Z.odd m; shr_s := rb || sb |}).
  { destruct m as [ | [ p | p | ] | p ]; cbn [shr_1]; try lia.
    - reflexivity.
    - f_equal. rewrite (Pos2Z.inj_xI p). apply Z.div_unique with (r := 1); lia.
    - f_equal. rewrite (Pos2Z.inj_xO p). apply Z.div_unique with (r := 0); lia.
    - reflexivity. }
  rewrite Hshape. cbn [shr_m shr_r shr_s].
  assert (Hor : rb || sb = true <-> rem <> 0).
  { rewrite orb_true_iff, Hr, Hs. lia. }
  unfold shifted_by. cbn [shr_m shr_r shr_s].
  destruct Hcases as [ [Hm2 Hodd] | [Hm2 Hodd] ]; rewrite Hodd.
  - exists rem. rewrite Hor.
    repeat split; try lia; try discriminate; try (apply Z.div_pos; lia).
  - exists (rem + a). rewrite Hor.
    repeat split; try lia; try (apply Z.div_pos; lia).
Qed.

Lemma iter_pos_iter {A : Type} (f : A -> A) (p : positive) :
  forall x, iter_pos f p x = Pos.iter f x p.
Proof.
  induction p as [ p IH | p IH | ]; intros x; cbn [iter_pos Pos.iter].
  - rewrite !IH, !Pos.iter_swap. reflexivity.
  - rewrite !IH. reflexivity.
  - reflexivity.
Qed.

Lemma iter_shr_1_shifted (M : Z) (p : positive) (r : shr_record) :
  shifted_by M 1 r -> shifted_by M (2 ^ Zpos p) (iter_pos shr_1 p r).
Proof.
  intros H0. rewrite iter_pos_iter.
  induction p as [ | p IH ] using Pos.peano_ind.
  - cbn [Pos.iter]. change (2 ^ 1) with (2 * 1). apply shr_1_shifted; [ lia | exact H0 ].
  - rewrite Pos.iter_succ, Pos2Z.inj_succ, Z.pow_succ_r by lia.
    apply shr_1_shifted; [ apply Z.pow_pos_nonneg; lia | exact IH ].
Qed.

(** [shr_fexp] on an exact non-negative mantissa. *)
Lemma shr_fexp_shifted (M e : Z) :
  0 <= M ->
  let e' := Z.max e (fexp (Zdigits2 M + e)) in
  snd (shr_fexp prec emax M e loc_Exact) = e' /\
  shifted_by M (2 ^ (e' - e)) (fst (shr_fexp prec emax M e loc_Exact)).
Proof.
  intros HM e'. subst e'. unfold shr_fexp, shr. cbn [shr_record_of_loc].
  assert (H0 : shifted_by M 1 {| shr_m := M; shr_r := false; shr_s := false |}).
  { exists 0. cbn [shr_m shr_r shr_s]. repeat split; try lia; try discriminate. }
  destruct (fexp (Zdigits2 M + e) - e) as [ | p | p ] eqn:Hn; cbn [fst snd].
  - split; [ lia | ].
    replace (Z.max e (fexp (Zdigits2 M + e)) - e) with 0 by lia. exact H0.
  - split; [ lia | ].
    replace (Z.max e (fexp (Zdigits2 M + e)) - e) with (Zpos p) by lia.
    apply iter_shr_1_shifted. exact H0.
  - split; [ lia | ].
    replace (Z.max e (fexp (Zdigits2 M + e)) - e) with 0 by lia. exact H0.
Qed.

(** Rounding to nearest, ties to even, of a shifted mantissa. *)
Lemma round_shifted (M a : Z) (r : shr_record) :
  shifted_by M a r ->
  exists T rem,
    M = a * T + rem /\ 0 <= rem < a /\ 0 <= T /\ shr_m r = T /\
    let R := round_nearest_even (shr_m r) (loc_of_shr_record r) in
    T <= R <= T + 1 /\
    (R = T + 1 <-> a < 2 * rem \/ (2 * rem = a /\ Z.odd T = true)).
Proof.
  intros (rem & HM & Hrem & Hm & Hr & Hs).
  exists (shr_m r), rem. repeat split; try assumption; try lia.
  - destruct r as [m [ | ] [ | ]]; cbn; try lia; destruct (Z.even m); lia.
  - destruct r as [m [ | ] [ | ]]; cbn; try lia; destruct (Z.even m); lia.
  - destruct r as [m rb sb]. cbn [shr_m shr_r shr_s] in *.
    destruct rb, sb; cbn [loc_of_shr_record round_nearest_even]; intros HR.
    + left. destruct Hr as [Hr _]. destruct Hs as [Hs _].
      specialize (Hr eq_refl). specialize (Hs eq_refl). lia.
    + right. destruct Hr as [Hr _]. specialize (Hr eq_refl).
      assert (Hhalf : 2 * rem = a).
      { destruct (Z.eq_dec (2 * rem) a) as [ | Hne ]; [ assumption | ].
        destruct Hs as [_ Hs]. assert (rem <> 0) by lia.
        specialize (Hs (conj H Hne)). discriminate. }
      split; [ exact Hhalf | ].
      rewrite <- Z.negb_even. destruct (Z.even m); [ lia | reflexivity ].
    + lia.
    + lia.
  - destruct r as [m rb sb]. cbn [shr_m shr_r shr_s] in *.
    intros Hcond.
    destruct rb, sb; cbn [loc_of_shr_record round_nearest_even].
    + reflexivity.
    + destruct Hcond as [ Hgt | [ Hhalf Hodd ] ].
      * destruct Hs as [_ Hs]. assert (Hs' : rem <> 0 /\ 2 * rem <> a) by lia.
        specialize (Hs Hs'). discriminate.
      * rewrite <- Z.negb_even in Hodd. destruct (Z.even m); [ discriminate | reflexivity ].
    + destruct Hr as [_ Hr]. assert (Hr' : a <= 2 * rem) by lia.
      specialize (Hr Hr'). discriminate.
    + destruct Hr as [_ Hr]. assert (Hr' : a <= 2 * rem) by lia.
      specialize (Hr Hr'). discriminate.
Qed.

(** Rounding is monotone across scales: of two exact values, given as
    multiples of [1/a] and of [1/b], the smaller one does not round to the
    larger integer. *)
Lemma round_cross_scale (a b T1 rem1 R1 T2 rem2 R2 : Z) :
  0 < a -> 0 < b ->
  0 <= rem1 < a -> 0 <= rem2 < b ->
  (a * T1 + rem1) * b <= (b * T2 + rem2) * a ->
  T1 <= R1 <= T1 + 1 ->
  (R1 = T1 + 1 <-> a < 2 * rem1 \/ (2 * rem1 = a /\ Z.odd T1 = true)) ->
  T2 <= R2 <= T2 + 1 ->
  (R2 = T2 + 1 <-> b < 2 * rem2 \/ (2 * rem2 = b /\ Z.odd T2 = true)) ->
  R1 <= R2.
Proof.
  intros Ha Hb Hr1 Hr2 Hle HR1 Hup1 HR2 Hup2.
  assert (Hab : 0 < a * b) by (apply Z.mul_pos_pos; assumption).
  assert (HT : T1 <= T2).
  { destruct (Z.le_gt_cases T1 T2) as [ | Hgt ]; [ assumption | exfalso ].
    assert (H1 : a * b * (T2 + 1) <= a * b * T1)
      by (apply Z.mul_le_mono_nonneg_l; lia).
    assert (H2 : rem2 * a < b * a) by (apply Z.mul_lt_mono_pos_r; lia).
    assert (H3 : 0 <= rem1 * b) by (apply Z.mul_nonneg_nonneg; lia).
    lia. }
  destruct (Z.eq_dec T1 T2) as [ <- | Hne ]; [ | lia ].
  destruct (Z.eq_dec R1 (T1 + 1)) as [ Hup | Hdown ]; [ | lia ].
  assert (Hrem : rem1 * b <= rem2 * a) by lia.
  apply Hup1 in Hup.
  assert (HR2up : R2 = T1 + 1).
  { apply Hup2. destruct Hup as [ Hgt | [ Hhalf Hodd ] ].
    - left.
      assert (H1 : a * b < 2 * rem1 * b) by (apply Z.mul_lt_mono_pos_r; lia).
      assert (H2 : a * b < a * (2 * rem2)) by lia.
      apply Z.mul_lt_mono_pos_l in H2; lia.
    - destruct (Z.eq_dec (2 * rem2) b) as [ Heq | Hneq ]; [ right; split; assumption | ].
      left.
      assert (H2 : a * b <= a * (2 * rem2)) by (rewrite <- Hhalf in *; lia).
      apply Z.mul_le_mono_pos_l in H2; lia. }
  lia.
Qed.

Lemma Zdigits2_bounds (m : Z) :
  0 < m -> 2 ^ (Zdigits2 m - 1) <= m < 2 ^ Zdigits2 m.
Proof.
  destruct m as [ | p | p ]; try lia. intros _. apply digits2_pos_bounds.
Qed.

Lemma Zdigits2_pos (m : Z) : 0 < m -> 0 < Zdigits2 m.
Proof. destruct m; cbn; lia. Qed.

Lemma Zdigits2_le (a b : Z) : 0 < a -> a <= b -> Zdigits2 a <= Zdigits2 b.
Proof.
  intros Ha Hab.
  pose proof (Zdigits2_bounds a Ha) as [Hlo _].
  pose proof (Zdigits2_bounds b ltac:(lia)) as [_ Hhi].
  pose proof (Zdigits2_pos a Ha). pose proof (Zdigits2_pos b ltac:(lia)).
  assert (Hpw : 2 ^ (Zdigits2 a - 1) < 2 ^ Zdigits2 b) by lia.
  apply Z.pow_lt_mono_r_iff in Hpw; lia.
Qed.

(** The result of rounding an exact positive mantissa [M] at an exponent
    [e] that is not above the canonical one, and not so small that the
    value vanishes. *)
Lemma binary_round_aux_exact (M : positive) (e : Z) :
  let F := fexp (Zpos (digits2_pos M) + e) in
  e <= F ->
  2 ^ (emin - e) <= Zpos M ->
  exists T rem R E m,
    Zpos M = 2 ^ (F - e) * T + rem /\ 0 <= rem < 2 ^ (F - e) /\
    0 < T < 2 ^ prec /\ (emin < F -> 2 ^ (prec - 1) <= T) /\
    T <= R <= T + 1 /\
    (R = T + 1 <-> 2 ^ (F - e) < 2 * rem \/ (2 * rem = 2 ^ (F - e) /\ Z.odd T = true)) /\
    E = Z.max F (fexp (Zdigits2 R + F)) /\
    F <= E <= F + 1 /\
    Zpos m = R / 2 ^ (E - F) /\
    (E = F + 1 -> Zpos m = 2 ^ (prec - 1)) /\
    binary_round_aux prec emax false (Zpos M) e loc_Exact
    = if E <=? emax - prec then S754_finite false m E else S754_infinity false.
Proof.
  intros F Hfine Hbig.
  pose proof (digits2_pos_bounds M) as [Hlo Hhi].
  set (d := Zpos (digits2_pos M)) in *.
  assert (HFmin : emin <= F) by (subst F; unfold SpecFloat.fexp; lia).
  assert (HFd : d + e - prec <= F) by (subst F; unfold SpecFloat.fexp; lia).
  assert (Hpow : 0 < 2 ^ (F - e)) by (apply Z.pow_pos_nonneg; lia).
  unfold binary_round_aux.
  destruct (shr_fexp_shifted (Zpos M) e ltac:(lia)) as [E1 S1].
  cbn [Zdigits2] in E1, S1. fold d in E1, S1. fold F in E1, S1.
  replace (Z.max e F) with F in E1, S1 by lia.
  destruct (shr_fexp prec emax (Zpos M) e loc_Exact) as [mrs1 e1].
  cbn [fst snd] in E1, S1. subst e1.
  destruct (round_shifted _ _ _ S1) as (T & rem & HM & Hrem & HT0 & HmT & HR & Hup).
  set (R := round_nearest_even (shr_m mrs1) (loc_of_shr_record mrs1)) in *.
  cbv zeta in HR, Hup.
  (* the truncated mantissa *)
  assert (HTdiv : T = Zpos M / 2 ^ (F - e)).
  { apply Z.div_unique with (r := rem); lia. }
  assert (HTpos : 0 < T).
  { rewrite HTdiv. apply Z.div_str_pos. split; [ exact Hpow | ].
    destruct (Z.eq_dec F emin) as [ -> | Hne ]; [ exact Hbig | ].
    assert (HF : F = d + e - prec) by (subst F; unfold SpecFloat.fexp in *; lia).
    apply Z.le_trans with (2 ^ (d - 1)); [ | exact Hlo ].
    apply Z.pow_le_mono_r; lia. }
  assert (HTlt : T < 2 ^ prec).
  { rewrite HTdiv. apply Z.div_lt_upper_bound; [ exact Hpow | ].
    rewrite <- Z.pow_add_r by lia.
    apply Z.lt_le_trans with (2 ^ d); [ exact Hhi | ].
    apply Z.pow_le_mono_r; lia. }
  assert (HTnormal : emin < F -> 2 ^ (prec - 1) <= T).
  { intros Hn. assert (HF : F = d + e - prec) by (subst F; unfold SpecFloat.fexp in *; lia).
    rewrite HTdiv. apply Z.div_le_lower_bound; [ exact Hpow | ].
    rewrite <- Z.pow_add_r by lia.
    replace (F - e + (prec - 1)) with (d - 1) by lia. exact Hlo. }
  (* the second normalisation *)
  assert (HRpos : 0 < R) by lia.
  assert (HRle : R <= 2 ^ prec) by lia.
  pose proof (Zdigits2_bounds R HRpos) as [HRlo HRhi].
  pose proof (Zdigits2_pos R HRpos) as HdR.
  assert (HdRle : Zdigits2 R <= prec + 1).
  { assert (H : 2 ^ (Zdigits2 R - 1) < 2 ^ (prec + 1)).
    { apply Z.le_lt_trans with (2 ^ prec); [ lia | ].
      apply Z.pow_lt_mono_r; lia. }
    apply Z.pow_lt_mono_r_iff in H; lia. }
  destruct (shr_fexp_spec prec emax R F loc_Exact ltac:(lia)) as [E2 M2].
  destruct (shr_fexp prec emax R F loc_Exact) as [mrs2 e2].
  cbn [fst snd] in E2, M2.
  set (E := Z.max F (fexp (Zdigits2 R + F))) in *. subst e2.
  assert (HE : F <= E <= F + 1) by (subst E; unfold SpecFloat.fexp; lia).
  assert (Hcarry : E = F + 1 -> R = 2 ^ prec).
  { intros HEq. assert (HdReq : Zdigits2 R = prec + 1)
      by (subst E; unfold SpecFloat.fexp in *; lia).
    rewrite HdReq in HRlo. replace (prec + 1 - 1) with prec in HRlo by lia. lia. }
  assert (Hm2 : 0 < shr_m mrs2 /\ (E = F + 1 -> shr_m mrs2 = 2 ^ (prec - 1))).
  { rewrite M2. destruct (Z.eq_dec E F) as [ HEF | HEF ].
    - rewrite HEF, Z.sub_diag, Z.pow_0_r, Z.div_1_r. split; [ lia | lia ].
    - assert (HEq : E = F + 1) by lia. rewrite (Hcarry HEq).
      replace (E - F) with 1 by lia.
      assert (H2 : 2 ^ prec / 2 ^ 1 = 2 ^ (prec - 1)).
      { rewrite <- Z.pow_sub_r by lia. reflexivity. }
      rewrite H2. split; [ apply Z.pow_pos_nonneg; lia | reflexivity ]. }
  destruct Hm2 as [Hm2pos Hm2carry].
  destruct (shr_m mrs2) as [ | m | m ] eqn:Hm; try lia.
  exists T, rem, R, E, m.
  repeat match goal with |- _ /\ _ => split end;
    try assumption; try reflexivity; try lia.
Qed.


Lemma value_le_digits (M1 : positive) (e1 : Z) (M2 : positive) (e2 : Z) :
  value_le (Zpos M1) e1 (Zpos M2) e2 ->
  Zpos (digits2_pos M1) + e1 <= Zpos (digits2_pos M2) + e2.
Proof.
  unfold value_le. intros Hle.
  pose proof (digits2_pos_bounds M1) as [Hlo1 _].
  pose proof (digits2_pos_bounds M2) as [_ Hhi2].
  set (d1 := Zpos (digits2_pos M1)) in *. set (d2 := Zpos (digits2_pos M2)) in *.
  set (e0 := Z.min e1 e2) in *.
  assert (Hd1 : 0 < d1) by (unfold d1; lia).
  assert (Hd2 : 0 < d2) by (unfold d2; lia).
  assert (He1 : 0 <= e1 - e0) by (unfold e0; lia).
  assert (He2 : 0 <= e2 - e0) by (unfold e0; lia).
  assert (H : 2 ^ (d1 - 1 + (e1 - e0)) < 2 ^ (d2 + (e2 - e0))).
  { rewrite (Z.pow_add_r 2 (d1 - 1) (e1 - e0)), (Z.pow_add_r 2 d2 (e2 - e0)) by lia.
    apply Z.le_lt_trans with (Zpos M1 * 2 ^ (e1 - e0)).
    - apply Z.mul_le_mono_nonneg_r; [ apply Z.pow_nonneg; lia | exact Hlo1 ].
    - apply Z.le_lt_trans with (Zpos M2 * 2 ^ (e2 - e0)); [ exact Hle | ].
      apply Z.mul_lt_mono_pos_r; [ apply Z.pow_pos_nonneg; lia | exact Hhi2 ]. }
  apply Z.pow_lt_mono_r_iff in H; lia.
Qed.

Lemma value_le_scale (M1 e1 M2 e2 F : Z) :
  e1 <= F -> e2 <= F ->
  value_le M1 e1 M2 e2 ->
  M1 * 2 ^ (F - e2) <= M2 * 2 ^ (F - e1).
Proof.
  unfold value_le. intros H1 H2 Hle.
  set (e0 := Z.min e1 e2) in *.
  assert (He1 : 0 <= e1 - e0) by (unfold e0; lia).
  assert (He2 : 0 <= e2 - e0) by (unfold e0; lia).
  assert (Hk : 0 <= F - e1 - e2 + e0) by (unfold e0; lia).
  apply (Z.mul_le_mono_nonneg_r _ _ (2 ^ (F - e1 - e2 + e0))) in Hle;
    [ | apply Z.pow_nonneg; lia ].
  rewrite <- !Z.mul_assoc in Hle.
  rewrite <- (Z.pow_add_r 2 (e1 - e0)), <- (Z.pow_add_r 2 (e2 - e0)) in Hle by lia.
  replace (e1 - e0 + (F - e1 - e2 + e0)) with (F - e2) in Hle by lia.
  replace (e2 - e0 + (F - e1 - e2 + e0)) with (F - e1) in Hle by lia.
  exact Hle.
Qed.

Lemma fexp_le (x y : Z) : x <= y -> fexp x <= fexp y.
Proof. unfold SpecFloat.fexp. lia. Qed.

Lemma emin_le_fexp (x : Z) : emin <= fexp x.
Proof. unfold SpecFloat.fexp. lia. Qed.

(** Rounding exact positive values is monotone. *)
Lemma binary_round_aux_mono (M1 : positive) (e1 : Z) (M2 : positive) (e2 : Z) :
  e1 <= fexp (Zpos (digits2_pos M1) + e1) ->
  2 ^ (emin - e1) <= Zpos M1 ->
  e2 <= fexp (Zpos (digits2_pos M2) + e2) ->
  2 ^ (emin - e2) <= Zpos M2 ->
  value_le (Zpos M1) e1 (Zpos M2) e2 ->
  SFleb (binary_round_aux prec emax false (Zpos M1) e1 loc_Exact)
        (binary_round_aux prec emax false (Zpos M2) e2 loc_Exact) = true.
Proof.
  intros Hfine1 Hbig1 Hfine2 Hbig2 Hle.
  pose proof (fexp_le _ _ (value_le_digits _ _ _ _ Hle)) as HF.
  destruct (binary_round_aux_exact M1 e1 Hfine1 Hbig1)
    as (T1 & rem1 & R1 & E1 & m1 & HM1 & Hrem1 & HT1 & Hn1 & HR1 & Hup1
        & HE1 & HEb1 & Hm1 & Hc1 & ->).
  destruct (binary_round_aux_exact M2 e2 Hfine2 Hbig2)
    as (T2 & rem2 & R2 & E2 & m2 & HM2 & Hrem2 & HT2 & Hn2 & HR2 & Hup2
        & HE2 & HEb2 & Hm2 & Hc2 & ->).
  set (F1 := fexp (Zpos (digits2_pos M1) + e1)) in *.
  set (F2 := fexp (Zpos (digits2_pos M2) + e2)) in *.
  pose proof (emin_le_fexp (Zpos (digits2_pos M1) + e1)) as HFmin. fold F1 in HFmin.
  assert (Hgoal : E1 < E2 \/ (E1 = E2 /\ Zpos m1 <= Zpos m2)).
  { destruct (Z.eq_dec F1 F2) as [ HFeq | HFne ].
    - (* the same scale *)
      assert (HR : R1 <= R2).
      { apply (round_cross_scale (2 ^ (F1 - e1)) (2 ^ (F2 - e2)) T1 rem1 R1 T2 rem2 R2);
          try assumption;
          try (apply Z.pow_pos_nonneg; clear - Hfine1 Hfine2; lia).
        rewrite <- HM1, <- HM2, <- HFeq.
        apply value_le_scale; [ exact Hfine1 | rewrite HFeq; exact Hfine2 | exact Hle ]. }
      assert (HRpos : 0 < R1) by (clear - HT1 HR1; lia).
      pose proof (fexp_le _ _ (Zplus_le_compat_r _ _ F1 (Zdigits2_le R1 R2 HRpos HR))) as HfR.
      rewrite HFeq in HfR at 2.
      assert (HE : E1 <= E2) by (clear - HE1 HE2 HFeq HfR; lia).
      destruct (Z.eq_dec E1 E2) as [ HEeq | HEne ];
        [ right | left; clear - HE HEne; lia ].
      split; [ exact HEeq | ]. rewrite Hm1, Hm2, <- HEeq, <- HFeq.
      apply Z.div_le_mono; [ apply Z.pow_pos_nonneg; clear - HEb1; lia | exact HR ].
    - (* the second value is in a higher binade *)
      destruct (Z.eq_dec E1 E2) as [ HEeq | HEne ];
        [ right | left; clear - HF HFne HEb1 HEb2 HEne; lia ].
      split; [ exact HEeq | ].
      assert (HEq1 : E1 = F1 + 1) by (clear - HF HFne HEb1 HEb2 HEeq; lia).
      assert (HEq2 : E2 = F2) by (clear - HF HFne HEb1 HEb2 HEeq; lia).
      rewrite (Hc1 HEq1), Hm2, HEq2, Z.sub_diag, Z.pow_0_r, Z.div_1_r.
      apply Z.le_trans with T2; [ apply Hn2; clear - HF HFne HFmin; lia | apply HR2 ]. }
  clear - Hgoal.
  unfold SFleb.
  destruct (E1 <=? emax - prec) eqn:Ho1; destruct (E2 <=? emax - prec) eqn:Ho2;
    cbn [SFcompare]; try reflexivity.
  - destruct (Z.compare_spec E1 E2) as [ Heq | Hlt | Hgt ]; try reflexivity; try lia.
    rewrite Pos.compare_cont_spec. cbn [Pos.switch_Eq].
    destruct (Pos.compare_spec m1 m2); try reflexivity. lia.
  - apply Z.leb_gt in Ho1. apply Z.leb_le in Ho2. lia.
Qed.

End Monotone.

(** * The order of canonical numbers *)

Section Order.
Variables prec emax : Z.
Hypothesis prec_gt_1 : 1 < prec.

Abbreviation fexp := (SpecFloat.fexp prec emax).
Abbreviation emin := (SpecFloat.emin prec emax).

(** [value_le] at any common base exponent. *)
Lemma value_le_base (c M1 e1 M2 e2 : Z) :
  c <= e1 -> c <= e2 ->
  value_le M1 e1 M2 e2 <-> M1 * 2 ^ (e1 - c) <= M2 * 2 ^ (e2 - c).
Proof.
  intros H1 H2. unfold value_le. set (e0 := Z.min e1 e2).
  assert (He1 : 0 <= e1 - e0) by (unfold e0; lia).
  assert (He2 : 0 <= e2 - e0) by (unfold e0; lia).
  assert (Hk : 0 <= e0 - c) by (unfold e0; lia).
  assert (Hp : 0 < 2 ^ (e0 - c)) by (apply Z.pow_pos_nonneg; lia).
  replace (e1 - c) with (e1 - e0 + (e0 - c)) by lia.
  replace (e2 - c) with (e2 - e0 + (e0 - c)) by lia.
  rewrite !Z.pow_add_r, !Z.mul_assoc by assumption.
  split; intros H.
  - apply Z.mul_le_mono_nonneg_r; [ lia | exact H ].
  - apply Z.mul_le_mono_pos_r in H; assumption.
Qed.

(** The digits of a canonical mantissa. *)
Lemma bounded_digits (m : positive) (e : Z) :
  bounded prec emax m e = true ->
  emin <= e /\ Zpos m < 2 ^ prec /\ (emin < e -> 2 ^ (prec - 1) <= Zpos m).
Proof.
  intros B. destruct (bounded_canonical prec emax m e B) as (C & L & _).
  pose proof (digits2_pos_bounds m) as [Hlo Hhi].
  set (d := Zpos (digits2_pos m)) in *.
  assert (Hd : 0 < d) by (unfold d; lia).
  unfold SpecFloat.fexp in C.
  split; [ exact L | split ].
  - apply Z.lt_le_trans with (2 ^ d); [ exact Hhi | ].
    apply Z.pow_le_mono_r; lia.
  - intros Hn. assert (d = prec) as <- by lia. exact Hlo.
Qed.

(** On canonical positive numbers the order of [SFcompare] is the order of
    the values. *)
Lemma SFleb_value_le (m1 : positive) (e1 : Z) (m2 : positive) (e2 : Z) :
  bounded prec emax m1 e1 = true ->
  bounded prec emax m2 e2 = true ->
  SFleb (S754_finite false m1 e1) (S754_finite false m2 e2) = true ->
  value_le (Zpos m1) e1 (Zpos m2) e2.
Proof.
  intros B1 B2.
  destruct (bounded_digits m1 e1 B1) as (L1 & U1 & _).
  destruct (bounded_digits m2 e2 B2) as (L2 & _ & N2).
  unfold SFleb. cbn [SFcompare]. unfold value_le.
  destruct (Z.compare_spec e1 e2) as [ Heq | Hlt | Hgt ]; try discriminate.
  - subst e2. rewrite Z.min_id, Z.sub_diag, Z.pow_0_r, !Z.mul_1_r.
    rewrite Pos.compare_cont_spec. cbn [Pos.switch_Eq].
    destruct (Pos.compare_spec m1 m2); try discriminate; intros _; lia.
  - intros _. replace (Z.min e1 e2) with e1 by lia.
    rewrite Z.sub_diag, Z.pow_0_r, Z.mul_1_r.
    assert (N : 2 ^ (prec - 1) <= Zpos m2) by (apply N2; lia).
    assert (P2 : 2 ^ 1 <= 2 ^ (e2 - e1)) by (apply Z.pow_le_mono_r; lia).
    assert (Hp : 2 ^ prec = 2 ^ (prec - 1) * 2 ^ 1)
      by (rewrite <- Z.pow_add_r by lia; f_equal; lia).
    assert (H : 2 ^ (prec - 1) * 2 ^ 1 <= Zpos m2 * 2 ^ (e2 - e1)).
    { apply Z.mul_le_mono_nonneg; try lia; apply Z.pow_nonneg; lia. }
    lia.
Qed.

(** [float >= int] is monotone in the float. *)
Lemma sf_ge_finite_scaled (m : positive) (e z k : Z) :
  0 <= k -> 0 <= e + k ->
  (if 0 <=? e then z <=? Zpos m * 2 ^ e else z * 2 ^ (- e) <=? Zpos m) = true
  <-> z * 2 ^ k <= Zpos m * 2 ^ (e + k).
Proof.
  intros Hk Hek. destruct (Z.leb_spec 0 e) as [ He | He ]; rewrite Z.leb_le.
  - rewrite Z.pow_add_r, Z.mul_assoc by lia.
    assert (Hp : 0 < 2 ^ k) by (apply Z.pow_pos_nonneg; lia).
    split; intros H.
    + apply Z.mul_le_mono_nonneg_r; lia.
    + apply Z.mul_le_mono_pos_r in H; assumption.
  - replace k with (- e + (e + k)) at 1 by lia.
    rewrite Z.pow_add_r, Z.mul_assoc by lia.
    assert (Hp : 0 < 2 ^ (e + k)) by (apply Z.pow_pos_nonneg; lia).
    split; intros H.
    + apply Z.mul_le_mono_nonneg_r; lia.
    + apply Z.mul_le_mono_pos_r in H; assumption.
Qed.

Lemma sf_ge_int_mono (x y : spec_float) (z : Z) :
  SpecFloat.valid_binary prec emax x = true ->
  SpecFloat.valid_binary prec emax y = true ->
  SFleb (S754_zero false) x = true ->
  SFleb x y = true ->
  sf_ge_int x z = true -> sf_ge_int y z = true.
Proof.
  intros Vx Vy H0 Hxy.
  destruct x as [ sx | [ | ] | | [ | ] mx ex ]; try discriminate H0;
    destruct y as [ sy | [ | ] | | [ | ] my ey ]; try discriminate Hxy;
    cbn [sf_ge_int negb]; try (intros; reflexivity); try (intros H; exact H).
  - (* zero, then a positive number *)
    rewrite Z.leb_le. intros Hz.
    apply (sf_ge_finite_scaled my ey z (Z.max 0 (- ey))); [ lia | lia | ].
    assert (Hp : 0 <= 2 ^ Z.max 0 (- ey)) by (apply Z.pow_nonneg; lia).
    assert (Hq : 0 <= Zpos my * 2 ^ (ey + Z.max 0 (- ey)))
      by (apply Z.mul_nonneg_nonneg; [ lia | apply Z.pow_nonneg; lia ]).
    apply Z.le_trans with 0; [ | exact Hq ].
    apply Z.mul_nonpos_nonneg; assumption.
  - (* two positive numbers *)
    cbn [SpecFloat.valid_binary] in Vx, Vy.
    pose proof (SFleb_value_le mx ex my ey Vx Vy Hxy) as Hv.
    set (k := Z.max 0 (Z.max (- ex) (- ey))).
    assert (Hk : 0 <= k) by (unfold k; lia).
    assert (Hkx : 0 <= ex + k) by (unfold k; lia).
    assert (Hky : 0 <= ey + k) by (unfold k; lia).
    rewrite (sf_ge_finite_scaled mx ex z k Hk Hkx), (sf_ge_finite_scaled my ey z k Hk Hky).
    apply (value_le_base (- k)) in Hv; [ | lia | lia ].
    replace (ex - - k) with (ex + k) in Hv by lia.
    replace (ey - - k) with (ey + k) in Hv by lia.
    lia.
Qed.

End Order.

(** * Multiplication by a constant is monotone *)

(** [K] is a normal number, at least 1: the [1000.0] of the runtime in
    milliseconds. *)
Section Product.
Variables prec emax : Z.
Hypothesis prec_gt_1 : 1 < prec.
Variables (mK : positive) (eK : Z).
Hypothesis K_normal : 2 ^ (prec - 1) <= Zpos mK.
Hypothesis K_ge_1 : 2 ^ (- eK) <= Zpos mK.

Abbreviation fexp := (SpecFloat.fexp prec emax).
Abbreviation emin := (SpecFloat.emin prec emax).

(** The exact product with [K] can be rounded by [binary_round_aux_exact]. *)
Lemma product_fine (m : positive) (e : Z) :
  bounded prec emax m e = true ->
  e + eK <= fexp (Zpos (digits2_pos (m * mK)) + (e + eK)) /\
  2 ^ (emin - (e + eK)) <= Zpos (m * mK).
Proof.
  intros B. destruct (bounded_digits prec emax prec_gt_1 m e B) as (L & _ & _).
  pose proof (digits2_pos_bounds (m * mK)) as [_ Hhi].
  set (d := Zpos (digits2_pos (m * mK))) in *.
  assert (Hd : 0 < d) by (unfold d; lia).
  rewrite Pos2Z.inj_mul in *.
  assert (Hm : 1 <= Zpos m) by lia.
  assert (Hprod : Zpos mK <= Zpos m * Zpos mK) by nia.
  split.
  - assert (Hdig : prec <= d).
    { assert (H : 2 ^ (prec - 1) < 2 ^ d) by lia.
      apply Z.pow_lt_mono_r_iff in H; lia. }
    unfold SpecFloat.fexp. lia.
  - apply Z.le_trans with (Zpos mK); [ | exact Hprod ].
    destruct (Z.le_gt_cases 0 (emin - (e + eK))) as [ Hnn | Hneg ].
    + apply Z.le_trans with (2 ^ (- eK)); [ | exact K_ge_1 ].
      apply Z.pow_le_mono_r; lia.
    + rewrite Z.pow_neg_r by lia. lia.
Qed.

Lemma product_value_le (m1 : positive) (e1 : Z) (m2 : positive) (e2 : Z) :
  value_le (Zpos m1) e1 (Zpos m2) e2 ->
  value_le (Zpos (m1 * mK)) (e1 + eK) (Zpos (m2 * mK)) (e2 + eK).
Proof.
  unfold value_le. intros H.
  replace (Z.min (e1 + eK) (e2 + eK)) with (Z.min e1 e2 + eK) by lia.
  replace (e1 + eK - (Z.min e1 e2 + eK)) with (e1 - Z.min e1 e2) by lia.
  replace (e2 + eK - (Z.min e1 e2 + eK)) with (e2 - Z.min e1 e2) by lia.
  rewrite !Pos2Z.inj_mul.
  apply (Z.mul_le_mono_nonneg_r _ _ (Zpos mK)) in H; [ | lia ].
  lia.
Qed.

(** The shape of a rounded positive value. *)
Lemma binary_round_aux_nonneg (M : positive) (e : Z) :
  e <= fexp (Zpos (digits2_pos M) + e) ->
  2 ^ (emin - e) <= Zpos M ->
  (exists m E, binary_round_aux prec emax false (Zpos M) e loc_Exact
               = S754_finite false m E)
  \/ binary_round_aux prec emax false (Zpos M) e loc_Exact = S754_infinity false.
Proof.
  intros Hfine Hbig.
  destruct (binary_round_aux_exact prec emax prec_gt_1 M e Hfine Hbig)
    as (T & rem & R & E & m & _ & _ & _ & _ & _ & _ & _ & _ & _ & _ & ->).
  destruct (E <=? emax - prec); [ left; exists m, E; reflexivity | right; reflexivity ].
Qed.

(** Multiplication by [K] is monotone on non-negative numbers. *)
Lemma SFmul_mono (x y : spec_float) :
  SpecFloat.valid_binary prec emax x = true ->
  SpecFloat.valid_binary prec emax y = true ->
  SFleb (S754_zero false) x = true ->
  SFleb x y = true ->
  SFleb (S754_zero false) (SFmul prec emax x (S754_finite false mK eK)) = true /\
  SFleb (SFmul prec emax x (S754_finite false mK eK))
        (SFmul prec emax y (S754_finite false mK eK)) = true.
Proof.
  intros Vx Vy H0 Hxy.
  destruct x as [ sx | [ | ] | | [ | ] mx ex ]; try discriminate H0;
    destruct y as [ sy | [ | ] | | [ | ] my ey ]; try discriminate Hxy;
    cbn [SFmul xorb]; try (split; reflexivity).
  - (* zero, then a positive number *)
    cbn [SpecFloat.valid_binary] in Vy. destruct (product_fine my ey Vy) as [Hf Hb].
    split; [ destruct sx; reflexivity | ].
    destruct (binary_round_aux_nonneg _ _ Hf Hb) as [ (m & E & ->) | -> ];
      destruct sx; reflexivity.
  - (* a positive number, then infinity *)
    cbn [SpecFloat.valid_binary] in Vx. destruct (product_fine mx ex Vx) as [Hfx Hbx].
    destruct (binary_round_aux_nonneg _ _ Hfx Hbx) as [ (m & E & ->) | -> ];
      split; reflexivity.
  - (* two positive numbers *)
    cbn [SpecFloat.valid_binary] in Vx, Vy.
    destruct (product_fine mx ex Vx) as [Hfx Hbx].
    destruct (product_fine my ey Vy) as [Hfy Hby].
    split.
    + destruct (binary_round_aux_nonneg _ _ Hfx Hbx) as [ (m & E & ->) | -> ]; reflexivity.
    + apply (binary_round_aux_mono prec emax prec_gt_1); try assumption.
      apply product_value_le. apply (SFleb_value_le prec emax prec_gt_1); assumption.
Qed.

End Product.

(** * Subtraction is monotone *)

Section Difference.
Variables prec emax : Z.
Hypothesis prec_gt_1 : 1 < prec.

Abbreviation fexp := (SpecFloat.fexp prec emax).
Abbreviation emin := (SpecFloat.emin prec emax).

Lemma digits2_pos_iter_xO (p d : positive) :
  Zpos (digits2_pos (Pos.iter xO p d)) = Zpos (digits2_pos p) + Zpos d.
Proof.
  induction d as [ | d IH ] using Pos.peano_ind.
  - cbn [Pos.iter digits2_pos]. lia.
  - rewrite Pos.iter_succ. cbn [digits2_pos]. lia.
Qed.

(** The left alignment of [binary_round] keeps the value and the canonical
    exponent. *)
Lemma shl_align_spec (p : positive) (e F : Z) :
  snd (shl_align p e F) = Z.min e F /\
  Zpos (fst (shl_align p e F)) = Zpos p * 2 ^ (e - Z.min e F) /\
  Zpos (digits2_pos (fst (shl_align p e F))) + snd (shl_align p e F)
  = Zpos (digits2_pos p) + e.
Proof.
  unfold shl_align. destruct (F - e) as [ | d | d ] eqn:Hd; cbn [fst snd].
  - replace (Z.min e F) with e by lia. rewrite Z.sub_diag, Z.pow_0_r. lia.
  - replace (Z.min e F) with e by lia. rewrite Z.sub_diag, Z.pow_0_r. lia.
  - replace (Z.min e F) with F by lia.
    rewrite iter_xO_pow, digits2_pos_iter_xO.
    replace (e - F) with (Zpos d) by lia. lia.
Qed.

(** [binary_round] of a positive mantissa, as a rounding of an exact value
    at an exponent that is not above the canonical one. *)
Lemma binary_round_aligned (p : positive) (e : Z) :
  emin <= e ->
  exists m' e',
    binary_round prec emax false p e
    = binary_round_aux prec emax false (Zpos m') e' loc_Exact /\
    e' <= fexp (Zpos (digits2_pos m') + e') /\
    2 ^ (emin - e') <= Zpos m' /\
    emin <= e' <= e /\
    Zpos m' = Zpos p * 2 ^ (e - e').
Proof.
  intros He. unfold binary_round.
  set (F := fexp (Zpos (digits2_pos p) + e)).
  destruct (shl_align_spec p e F) as (Hs & Hm & Hd).
  destruct (shl_align p e F) as [m' e']. cbn [fst snd] in Hs, Hm, Hd.
  assert (HF : emin <= F) by (unfold F, SpecFloat.fexp; lia).
  exists m', e'. split; [ reflexivity | ].
  split; [ rewrite Hd; fold F; lia | ].
  split; [ | split; [ lia | rewrite Hs; exact Hm ] ].
  destruct (Z.eq_dec e' emin) as [ -> | Hne ].
  - rewrite Z.sub_diag, Z.pow_0_r. lia.
  - rewrite Z.pow_neg_r by lia. lia.
Qed.

(** [binary_normalize] is monotone on non-negative exact values. *)
Lemma binary_normalize_mono (D1 e1 D2 e2 : Z) :
  0 <= D1 -> emin <= e1 -> emin <= e2 ->
  value_le D1 e1 D2 e2 ->
  SFleb (S754_zero false) (binary_normalize prec emax D1 e1 false) = true /\
  SFleb (binary_normalize prec emax D1 e1 false)
        (binary_normalize prec emax D2 e2 false) = true.
Proof.
  intros HD1 He1 He2 Hle.
  assert (Hshape : forall D e, 0 <= D -> emin <= e ->
            SFleb (S754_zero false) (binary_normalize prec emax D e false) = true).
  { intros D e HD He. destruct D as [ | p | p ]; cbn [binary_normalize]; try lia.
    - reflexivity.
    - destruct (binary_round_aligned p e He) as (m' & e' & -> & Hf & Hb & _ & _).
      destruct (binary_round_aux_nonneg prec emax prec_gt_1 m' e' Hf Hb)
        as [ (m & E & ->) | -> ]; reflexivity. }
  split; [ apply Hshape; assumption | ].
  assert (HD2 : D1 = 0 \/ (0 < D1 /\ 0 < D2)).
  { destruct (Z.eq_dec D1 0) as [ | Hne ]; [ left; assumption | right ].
    split; [ lia | ]. unfold value_le in Hle.
    set (e0 := Z.min e1 e2) in *.
    assert (Hp1 : 0 < 2 ^ (e1 - e0)) by (apply Z.pow_pos_nonneg; unfold e0; lia).
    assert (Hp2 : 0 < 2 ^ (e2 - e0)) by (apply Z.pow_pos_nonneg; unfold e0; lia).
    assert (H1 : 0 < D1 * 2 ^ (e1 - e0)) by (apply Z.mul_pos_pos; lia).
    destruct (Z.lt_trichotomy D2 0) as [ Hneg | [ Hz | Hpos ] ]; [ | | exact Hpos ].
    - assert (H2 : D2 * 2 ^ (e2 - e0) < 0) by (apply Z.mul_neg_pos; lia). lia.
    - subst D2. lia. }
  destruct HD2 as [ -> | [ Hp1 Hp2 ] ].
  - cbn [binary_normalize].
    assert (H2 : 0 <= D2).
    { unfold value_le in Hle. rewrite Z.mul_0_l in Hle.
      destruct (Z.le_gt_cases 0 D2) as [ | Hneg ]; [ assumption | ].
      assert (Hp : 0 < 2 ^ (e2 - Z.min e1 e2)) by (apply Z.pow_pos_nonneg; lia).
      assert (H : D2 * 2 ^ (e2 - Z.min e1 e2) < 0) by (apply Z.mul_neg_pos; lia).
      lia. }
    apply Hshape; assumption.
  - destruct D1 as [ | p1 | p1 ]; try lia. destruct D2 as [ | p2 | p2 ]; try lia.
    cbn [binary_normalize].
    destruct (binary_round_aligned p1 e1 He1) as (m1 & a1 & -> & Hf1 & Hb1 & Ha1 & Hm1).
    destruct (binary_round_aligned p2 e2 He2) as (m2 & a2 & -> & Hf2 & Hb2 & Ha2 & Hm2).
    apply (binary_round_aux_mono prec emax prec_gt_1); try assumption.
    set (c := Z.min a1 a2).
    apply (value_le_base c); [ unfold c; lia | unfold c; lia | ].
    apply (value_le_base c) in Hle; [ | unfold c; lia | unfold c; lia ].
    rewrite Hm1, Hm2, <- !Z.mul_assoc.
    rewrite <- (Z.pow_add_r 2 (e1 - a1)), <- (Z.pow_add_r 2 (e2 - a2))
      by (unfold c; lia).
    replace (e1 - a1 + (a1 - c)) with (e1 - c) by lia.
    replace (e2 - a2 + (a2 - c)) with (e2 - c) by lia.
    exact Hle.
Qed.

Lemma SFsub_finite (mt : positive) (et : Z) (ms : positive) (es : Z) :
  SFsub prec emax (S754_finite false mt et) (S754_finite false ms es)
  = binary_normalize prec emax
      (Zpos mt * 2 ^ (et - Z.min et es) - Zpos ms * 2 ^ (es - Z.min et es))
      (Z.min et es) false.
Proof.
  cbn [SFsub cond_Zopp].
  rewrite (shl_align_fst mt et (Z.min et es)), (shl_align_fst ms es (Z.min et es)) by lia.
  reflexivity.
Qed.

(** The difference of two positive numbers, at any base exponent below
    theirs. *)
Lemma difference_at_base (c mt et ms es : Z) :
  c <= et -> c <= es ->
  (mt * 2 ^ (et - Z.min et es) - ms * 2 ^ (es - Z.min et es)) * 2 ^ (Z.min et es - c)
  = mt * 2 ^ (et - c) - ms * 2 ^ (es - c).
Proof.
  intros Ht Hs. set (ez := Z.min et es).
  assert (H1 : 0 <= et - ez) by (unfold ez; lia).
  assert (H2 : 0 <= es - ez) by (unfold ez; lia).
  assert (H3 : 0 <= ez - c) by (unfold ez; lia).
  rewrite Z.mul_sub_distr_r, <- !Z.mul_assoc, <- !Z.pow_add_r by assumption.
  replace (et - ez + (ez - c)) with (et - c) by lia.
  replace (es - ez + (ez - c)) with (es - c) by lia.
  reflexivity.
Qed.

(** Subtracting the same non-negative number is monotone above it. *)
Lemma SFsub_mono (s t t' : spec_float) :
  SpecFloat.valid_binary prec emax s = true ->
  SpecFloat.valid_binary prec emax t = true ->
  SpecFloat.valid_binary prec emax t' = true ->
  SFleb (S754_zero false) s = true ->
  SFleb s t = true ->
  SFleb t t' = true ->
  SFsub prec emax t s = S754_nan
  \/ (SFleb (S754_zero false) (SFsub prec emax t s) = true /\
      SFleb (SFsub prec emax t s) (SFsub prec emax t' s) = true).
Proof.
  intros Vs Vt Vt' H0 Hst Htt'.
  destruct s as [ ss | [ | ] | | [ | ] ms es ]; try discriminate H0.
  - (* the start is zero *)
    right.
    destruct t as [ st | [ | ] | | [ | ] mt et ]; try discriminate Hst;
      destruct t' as [ st' | [ | ] | | [ | ] mt' et' ]; try discriminate Htt';
      cbn [SFsub];
      repeat match goal with b : bool |- _ => destruct b end;
      split; first [ reflexivity | exact Htt' ].
  - (* the start is infinite *)
    left.
    destruct t as [ st | [ | ] | | [ | ] mt et ]; try discriminate Hst. reflexivity.
  - (* the start is a positive number *)
    right.
    destruct t as [ st | [ | ] | | [ | ] mt et ]; try discriminate Hst.
    + (* infinity *)
      destruct t' as [ st' | [ | ] | | [ | ] mt' et' ]; try discriminate Htt'.
      split; reflexivity.
    + cbn [SpecFloat.valid_binary] in Vs, Vt.
      pose proof (SFleb_value_le prec emax prec_gt_1 ms es mt et Vs Vt Hst) as Hv.
      destruct (bounded_digits prec emax prec_gt_1 ms es Vs) as (Ls & _ & _).
      destruct (bounded_digits prec emax prec_gt_1 mt et Vt) as (Lt & _ & _).
      rewrite SFsub_finite.
      assert (HD : 0 <= Zpos mt * 2 ^ (et - Z.min et es) - Zpos ms * 2 ^ (es - Z.min et es)).
      { apply (value_le_base (Z.min et es)) in Hv; [ | lia | lia ].
        apply Z.le_0_sub. exact Hv. }
      destruct t' as [ st' | [ | ] | | [ | ] mt' et' ]; try discriminate Htt'.
      * (* a positive number, then infinity *)
        destruct (binary_normalize_mono _ (Z.min et es) _ (Z.min et es) HD
                    ltac:(lia) ltac:(lia) ltac:(unfold value_le; apply Z.le_refl))
          as [Hpos _].
        split; [ exact Hpos | ]. cbn [SFsub]. revert Hpos. unfold SFleb.
        destruct (binary_normalize prec emax _ (Z.min et es) false)
          as [ s0 | [ | ] | | [ | ] m0 e0 ]; cbn [SFcompare]; congruence.
      * (* two positive numbers *)
        cbn [SpecFloat.valid_binary] in Vt'.
        pose proof (SFleb_value_le prec emax prec_gt_1 mt et mt' et' Vt Vt' Htt') as Hv'.
        destruct (bounded_digits prec emax prec_gt_1 mt' et' Vt') as (Lt' & _ & _).
        rewrite SFsub_finite.
        apply binary_normalize_mono; try lia.
        set (c := Z.min (Z.min et es) (Z.min et' es)).
        apply (value_le_base c); [ unfold c; lia | unfold c; lia | ].
        rewrite !difference_at_base by (unfold c; lia).
        apply (value_le_base c) in Hv'; [ | unfold c; lia | unfold c; lia ].
        lia.
Qed.

End Difference.

(** * The runtime under a clock that does not go back *)

(** [1000.0] is [1000 * 2^43 * 2^-43]. *)
Lemma Prim2SF_1000 :
  Prim2SF 1000%float = S754_finite false 8796093022208000 (-43).
Proof. reflexivity. Qed.

(** The runtime in milliseconds is monotone in the clock reading, from the
    start on, and so is its comparison with a ceiling. *)
Lemma float_ge_int_runtime_mono (s t t' : float) (z : Z) :
  PrimFloat.leb 0%float s = true ->
  PrimFloat.leb s t = true ->
  PrimFloat.leb t t' = true ->
  float_ge_int (PrimFloat.mul (PrimFloat.sub t s) 1000%float) z = true ->
  float_ge_int (PrimFloat.mul (PrimFloat.sub t' s) 1000%float) z = true.
Proof.
  rewrite !leb_spec, Prim2SF_zero. intros H0 Hst Htt'.
  pose proof (Prim2SF_valid (PrimFloat.sub t s)) as Vd.
  pose proof (Prim2SF_valid (PrimFloat.sub t' s)) as Vd'.
  pose proof (Prim2SF_valid (PrimFloat.mul (PrimFloat.sub t s) 1000%float)) as Vp.
  pose proof (Prim2SF_valid (PrimFloat.mul (PrimFloat.sub t' s) 1000%float)) as Vp'.
  unfold float_ge_int. rewrite !mul_spec, Prim2SF_1000 in *. rewrite !sub_spec in *.
  unfold SF64mul, SF64sub in *.
  destruct (SFsub_mono prec emax ltac:(reflexivity) (Prim2SF s) (Prim2SF t) (Prim2SF t')
              (Prim2SF_valid s) (Prim2SF_valid t) (Prim2SF_valid t') H0 Hst Htt')
    as [ -> | [Hd0 Hdd'] ].
  - cbn. discriminate.
  - destruct (SFmul_mono prec emax ltac:(reflexivity) 8796093022208000 (-43)
                ltac:(vm_compute; discriminate) ltac:(vm_compute; discriminate)
                _ _ Vd Vd' Hd0 Hdd') as [Hp0 Hpp'].
    apply (sf_ge_int_mono prec emax ltac:(reflexivity) _ _ z Vp Vp' Hp0 Hpp').
Qed.

Lemma runtime_trips_later (g g' : ExecutionGuard) (t t' : float) :
  config g' = config g ->
  start_time g' = start_time g ->
  PrimFloat.leb 0%float (start_time g) = true ->
  PrimFloat.leb (start_time g) t = true ->
  PrimFloat.leb t t' = true ->
  runtime_trips t g = true -> runtime_trips t' g' = true.
Proof.
  intros Hcfg Hstart H0 Hst Htt'. unfold runtime_trips, runtime_ms.
  rewrite Hcfg, Hstart.
  destruct (max_runtime_ms (config g)) as [ limit | ]; [ | discriminate ].
  apply float_ge_int_runtime_mono; assumption.
Qed.

(** X12. Under a clock that does not go back the runtime limit, once
    tripped, stays tripped: when the start time is not negative and the
    clock readings [t <= t'] are not before it, a positive outcome of
    [check_runtime_limit] at [t] implies one at [t']. *)
Theorem runtime_termination_is_permanent
    (g : ExecutionGuard) (t t' : float) (r : ExecutionGuardResult) :
  PrimFloat.leb 0%float (start_time g) = true ->
  PrimFloat.leb (start_time g) t = true ->
  PrimFloat.leb t t' = true ->
  check_runtime_limit t g = Returned (Some r, g) ->
  exists r',
    check_runtime_limit t' g = Returned (Some r', g) /\
    should_terminate r' = true /\
    reason r' = "TIME_LIMIT_EXCEEDED".
Proof.
  intros H0 Hst Htt' Hcheck.
  assert (Htrip : runtime_trips t g = true).
  { rewrite check_runtime_limit_run in Hcheck. unfold runtime_trips.
    destruct (max_runtime_ms (config g)) as [ limit | ]; [ | discriminate Hcheck ].
    destruct (float_ge_int (runtime_ms t g) limit); [ reflexivity | discriminate Hcheck ]. }
  pose proof (runtime_trips_later g g t t' eq_refl eq_refl H0 Hst Htt' Htrip) as Htrip'.
  rewrite check_runtime_limit_run. unfold runtime_trips in Htrip'.
  destruct (max_runtime_ms (config g)) as [ limit | ]; [ | discriminate Htrip' ].
  rewrite Htrip'. eexists. repeat split.
Qed.

(** A guard with a ceiling of 100 ms, started at 1000 s, read at 1000.15 s
    and again at 1003 s. *)
Lemma runtime_termination_is_permanent_witness :
  exists r',
    check_runtime_limit 1003%float guard_started_late = Returned (Some r', guard_started_late) /\
    should_terminate r' = true /\
    reason r' = "TIME_LIMIT_EXCEEDED".
Proof.
  apply (runtime_termination_is_permanent guard_started_late 1000.15%float 1003%float
           {| should_terminate := true;
              reason := "TIME_LIMIT_EXCEEDED";
              details := [("current_runtime_ms",
                           PyFloat (runtime_ms 1000.15%float guard_started_late));
                          ("max_runtime_ms", PyInt 100)] |});
    reflexivity.
Defined.



(** * Exact values and the order of binary64 numbers *)

(** The exact value of a finite number, scaled to an integer. *)
Lemma sf_value_scaled (s : bool) (m : positive) (e k : Z) (q : Q) :
  0 <= k -> 0 <= e + k ->
  sf_to_Q (S754_finite s m e) = Some q ->
  (inject_Z (2 ^ k) * q == inject_Z ((if s then Zneg m else Zpos m) * 2 ^ (e + k)))%Q.
Proof.
  intros Hk Hek. cbn [sf_to_Q]. intros [= <-].
  set (n := if s then Zneg m else Zpos m).
  destruct (Z.leb_spec 0 e) as [ He | He ].
  - rewrite <- inject_Z_mult. apply inject_Z_injective.
    rewrite Z.pow_add_r by lia. lia.
  - unfold Qeq, Qmult, inject_Z. cbn [Qnum Qden].
    rewrite Pos.mul_1_l, Z2Pos.id by (apply Z.pow_pos_nonneg; lia).
    rewrite Z.mul_1_r, <- Z.mul_assoc, <- Z.pow_add_r by lia.
    replace (e + k + - e) with k by lia. lia.
Qed.

Lemma Qle_scaled (k a b : Z) (qa qb : Q) :
  0 <= k ->
  (inject_Z (2 ^ k) * qa == inject_Z a)%Q ->
  (inject_Z (2 ^ k) * qb == inject_Z b)%Q ->
  (qa <= qb)%Q <-> a <= b.
Proof.
  intros Hk Ha Hb.
  assert (Hp : (0 < inject_Z (2 ^ k))%Q).
  { rewrite <- (Zlt_Qlt 0). apply Z.pow_pos_nonneg; lia. }
  rewrite Zle_Qle, <- Ha, <- Hb.
  symmetry. apply Qmult_le_l. exact Hp.
Qed.

Section ExactOrder.
Variables prec emax : Z.
Hypothesis prec_gt_1 : 1 < prec.

(** On canonical positive numbers [SFcompare] decides the order of the
    values. *)
Lemma SFleb_value_le_iff (m1 : positive) (e1 : Z) (m2 : positive) (e2 : Z) :
  bounded prec emax m1 e1 = true ->
  bounded prec emax m2 e2 = true ->
  SFleb (S754_finite false m1 e1) (S754_finite false m2 e2) = true
  <-> value_le (Zpos m1) e1 (Zpos m2) e2.
Proof.
  intros B1 B2. split; [ apply (SFleb_value_le prec emax prec_gt_1); assumption | ].
  destruct (bounded_digits prec emax prec_gt_1 m1 e1 B1) as (L1 & _ & N1).
  destruct (bounded_digits prec emax prec_gt_1 m2 e2 B2) as (L2 & U2 & _).
  unfold SFleb. cbn [SFcompare]. unfold value_le.
  destruct (Z.compare_spec e1 e2) as [ Heq | Hlt | Hgt ]; try (intros; reflexivity).
  - subst e2. rewrite Z.min_id, Z.sub_diag, Z.pow_0_r, !Z.mul_1_r.
    rewrite Pos.compare_cont_spec. cbn [Pos.switch_Eq].
    destruct (Pos.compare_spec m1 m2); try (intros; reflexivity). lia.
  - replace (Z.min e1 e2) with e2 by lia.
    rewrite Z.sub_diag, Z.pow_0_r, Z.mul_1_r. intros Hle. exfalso.
    assert (N : 2 ^ (prec - 1) <= Zpos m1) by (apply N1; lia).
    assert (P2 : 2 ^ 1 <= 2 ^ (e1 - e2)) by (apply Z.pow_le_mono_r; lia).
    assert (Hp : 2 ^ prec = 2 ^ (prec - 1) * 2 ^ 1)
      by (rewrite <- Z.pow_add_r by lia; f_equal; lia).
    assert (H : 2 ^ (prec - 1) * 2 ^ 1 <= Zpos m1 * 2 ^ (e1 - e2)).
    { apply Z.mul_le_mono_nonneg; try lia; apply Z.pow_nonneg; lia. }
    lia.
Qed.

(** Among negative numbers the order is the reverse of that of the
    magnitudes. *)
Lemma SFleb_negative (m1 : positive) (e1 : Z) (m2 : positive) (e2 : Z) :
  SFleb (S754_finite true m1 e1) (S754_finite true m2 e2)
  = SFleb (S754_finite false m2 e2) (S754_finite false m1 e1).
Proof.
  unfold SFleb. cbn [SFcompare]. rewrite !Pos.compare_cont_spec. cbn [Pos.switch_Eq].
  destruct (Z.compare_spec e1 e2); destruct (Z.compare_spec e2 e1);
    try lia; try reflexivity.
  destruct (Pos.compare_spec m1 m2); destruct (Pos.compare_spec m2 m1);
    try lia; reflexivity.
Qed.

(** On finite canonical numbers [<=] decides the order of the exact
    values. *)
Lemma SFleb_exact (x y : spec_float) (qx qy : Q) :
  SpecFloat.valid_binary prec emax x = true ->
  SpecFloat.valid_binary prec emax y = true ->
  sf_to_Q x = Some qx ->
  sf_to_Q y = Some qy ->
  SFleb x y = true <-> (qx <= qy)%Q.
Proof.
  intros Vx Vy Hx Hy.
  assert (Hpos : forall (m : positive) k, 0 < Zpos m * 2 ^ k \/ k < 0).
  { intros m k. destruct (Z.le_gt_cases 0 k); [ left | right; lia ].
    apply Z.mul_pos_pos; [ lia | apply Z.pow_pos_nonneg; lia ]. }
  destruct x as [ sx | sx | | sx mx ex ]; try discriminate Hx;
    destruct y as [ sy | sy | | sy my ey ]; try discriminate Hy.
  - (* two zeros *)
    cbn in Hx, Hy. injection Hx as <-. injection Hy as <-.
    split; [ intros _; apply Qle_refl | reflexivity ].
  - (* zero and a number *)
    set (k := Z.max 0 (- ey)).
    pose proof (sf_value_scaled sy my ey k qy ltac:(unfold k; lia) ltac:(unfold k; lia) Hy)
      as Sy.
    cbn in Hx. injection Hx as <-.
    assert (S0 : (inject_Z (2 ^ k) * 0 == inject_Z 0)%Q) by (rewrite Qmult_0_r; reflexivity).
    rewrite (Qle_scaled k _ _ _ _ ltac:(unfold k; lia) S0 Sy).
    destruct (Hpos my (ey + k)) as [ Hp | Hn ]; [ | unfold k in Hn; lia ].
    destruct sy; unfold SFleb; cbn [SFcompare]; split; intros H;
      try discriminate; try reflexivity; try lia.
  - (* a number and zero *)
    set (k := Z.max 0 (- ex)).
    pose proof (sf_value_scaled sx mx ex k qx ltac:(unfold k; lia) ltac:(unfold k; lia) Hx)
      as Sx.
    cbn in Hy. injection Hy as <-.
    assert (S0 : (inject_Z (2 ^ k) * 0 == inject_Z 0)%Q) by (rewrite Qmult_0_r; reflexivity).
    rewrite (Qle_scaled k _ _ _ _ ltac:(unfold k; lia) Sx S0).
    destruct (Hpos mx (ex + k)) as [ Hp | Hn ]; [ | unfold k in Hn; lia ].
    destruct sx; unfold SFleb; cbn [SFcompare]; split; intros H;
      try discriminate; try reflexivity; try lia.
  - (* two numbers *)
    set (k := Z.max 0 (Z.max (- ex) (- ey))).
    assert (Hk : 0 <= k) by (unfold k; lia).
    assert (Hkx : 0 <= ex + k) by (unfold k; lia).
    assert (Hky : 0 <= ey + k) by (unfold k; lia).
    pose proof (sf_value_scaled sx mx ex k qx Hk Hkx Hx) as Sx.
    pose proof (sf_value_scaled sy my ey k qy Hk Hky Hy) as Sy.
    rewrite (Qle_scaled k _ _ _ _ Hk Sx Sy).
    cbn [SpecFloat.valid_binary] in Vx, Vy.
    destruct (Hpos mx (ex + k)) as [ Hpx | Hn ]; [ | lia ].
    destruct (Hpos my (ey + k)) as [ Hpy | Hn ]; [ | lia ].
    assert (Hbase : forall m1 e1 m2 e2, - k <= e1 -> - k <= e2 ->
              value_le (Zpos m1) e1 (Zpos m2) e2
              <-> Zpos m1 * 2 ^ (e1 + k) <= Zpos m2 * 2 ^ (e2 + k)).
    { intros m1 e1 m2 e2 H1 H2. rewrite (value_le_base (- k)) by lia.
      replace (e1 - - k) with (e1 + k) by lia. replace (e2 - - k) with (e2 + k) by lia.
      reflexivity. }
    destruct sx, sy.
    + rewrite SFleb_negative, (SFleb_value_le_iff my ey mx ex Vy Vx), Hbase by lia.
      rewrite <- !Pos2Z.opp_pos, !Z.mul_opp_l. lia.
    + unfold SFleb; cbn [SFcompare]. split; [ intros _ | reflexivity ].
      rewrite <- Pos2Z.opp_pos, Z.mul_opp_l. lia.
    + unfold SFleb; cbn [SFcompare]. split; [ discriminate | ].
      rewrite <- Pos2Z.opp_pos, Z.mul_opp_l. lia.
    + rewrite (SFleb_value_le_iff mx ex my ey Vx Vy), Hbase by lia. reflexivity.
Qed.

End ExactOrder.

(** [<=] on finite binary64 numbers is the order of their exact values. *)
Lemma float_leb_exact (x y : float) (qx qy : Q) :
  float_to_Q x = Some qx ->
  float_to_Q y = Some qy ->
  PrimFloat.leb x y = true <-> (qx <= qy)%Q.
Proof.
  unfold float_to_Q. intros Hx Hy. rewrite leb_spec.
  apply (SFleb_exact prec emax ltac:(reflexivity) _ _ qx qy
           (Prim2SF_valid x) (Prim2SF_valid y) Hx Hy).
Qed.

(** The strict order of the exact values is the failure of [<=] the other
    way round. *)
Lemma float_leb_exact_false (x y : float) (qx qy : Q) :
  float_to_Q x = Some qx ->
  float_to_Q y = Some qy ->
  PrimFloat.leb x y = false <-> (qy < qx)%Q.
Proof.
  intros Hx Hy. rewrite <- Bool.not_true_iff_false, (float_leb_exact x y qx qy Hx Hy).
  split; [ apply Qnot_le_lt | apply Qlt_not_le ].
Qed.

Lemma float_ge_int_exact_false (f : float) (z : Z) (q : Q) :
  float_to_Q f = Some q ->
  float_ge_int f z = false <-> (q < inject_Z z)%Q.
Proof.
  intros Hf. rewrite <- Bool.not_true_iff_false, (float_ge_int_exact f z q Hf).
  split; [ apply Qnot_le_lt | apply Qlt_not_le ].
Qed.

(** * The individual checks, through exact values *)

(** C3. The runtime, token and cost checks trip on reaching their ceiling,
    the step check only on passing it.

    Runtime: the elapsed time is the binary64 number
    [(now - start_time) * 1000] that the code computes.  When it is finite
    with exact value [q], the check returns its positive outcome if
    [limit <= q] and [None] if [q < limit], the comparison being that of the
    exact values of the float and of the integer ceiling; an infinite elapsed
    time trips, a negative infinite one or a NaN does not.

    Tokens: positive outcome if [limit <= token_count], [None] if
    [token_count < limit].

    Cost: positive outcome if [max_cost_usd <= cost_tracker] as binary64
    numbers, [None] if not; for finite numbers that is the order of their
    exact values.

    Steps, by contrast: [None] at [step_count = max_steps], positive outcome
    at [max_steps + 1]. *)
Theorem runtime_token_cost_trip_on_reaching (now : float) (g : ExecutionGuard) :
  (forall limit elapsed,
      max_runtime_ms (config g) = Some limit ->
      elapsed = PrimFloat.mul (PrimFloat.sub now (start_time g)) 1000%float ->
      (forall q,
          float_to_Q elapsed = Some q ->
          ((inject_Z limit <= q)%Q ->
           check_runtime_limit now g
           = Returned (Some {| should_terminate := true;
                               reason := "TIME_LIMIT_EXCEEDED";
                               details := [("current_runtime_ms", PyFloat elapsed);
                                           ("max_runtime_ms", PyInt limit)] |}, g)) /\
          ((q < inject_Z limit)%Q ->
           check_runtime_limit now g = Returned (None, g)))
      /\ (elapsed = infinity ->
          check_runtime_limit now g
          = Returned (Some {| should_terminate := true;
                              reason := "TIME_LIMIT_EXCEEDED";
                              details := [("current_runtime_ms", PyFloat elapsed);
                                          ("max_runtime_ms", PyInt limit)] |}, g))
      /\ (elapsed = neg_infinity \/ elapsed = nan ->
          check_runtime_limit now g = Returned (None, g)))
  /\ (forall limit,
      max_tokens (config g) = Some limit ->
      (limit <= token_count g ->
       check_token_limit g
       = Returned (Some {| should_terminate := true;
                           reason := "TOKEN_LIMIT_EXCEEDED";
                           details := [("token_count", PyInt (token_count g));
                                       ("max_tokens", PyInt limit)] |}, g)) /\
      (token_count g < limit ->
       check_token_limit g = Returned (None, g)))
  /\ (forall limit,
      max_cost_usd (config g) = Some limit ->
      (PrimFloat.leb limit (cost_tracker g) = true ->
       check_cost_limit g
       = Returned (Some {| should_terminate := true;
                           reason := "COST_LIMIT_EXCEEDED";
                           details := [("current_cost_usd", PyFloat (cost_tracker g));
                                       ("max_cost_usd", PyFloat limit)] |}, g)) /\
      (PrimFloat.leb limit (cost_tracker g) = false ->
       check_cost_limit g = Returned (None, g)) /\
      (forall q_limit q_cost,
          float_to_Q limit = Some q_limit ->
          float_to_Q (cost_tracker g) = Some q_cost ->
          ((q_limit <= q_cost)%Q ->
           check_cost_limit g
           = Returned (Some {| should_terminate := true;
                               reason := "COST_LIMIT_EXCEEDED";
                               details := [("current_cost_usd", PyFloat (cost_tracker g));
                                           ("max_cost_usd", PyFloat limit)] |}, g)) /\
          ((q_cost < q_limit)%Q ->
           check_cost_limit g = Returned (None, g))))
  /\ (forall limit,
      max_steps (config g) = Some limit ->
      (step_count g = limit ->
       check_step_limit g = Returned (None, g)) /\
      (step_count g = limit + 1 ->
       check_step_limit g
       = Returned (Some {| should_terminate := true;
                           reason := "STEP_LIMIT_EXCEEDED";
                           details := [("step_count", PyInt (limit + 1));
                                       ("max_steps", PyInt limit)] |}, g))).
Proof.
  split; [ | split; [ | split ] ].
  - intros limit elapsed Hlimit Helapsed.
    rewrite check_runtime_limit_run, Hlimit. unfold runtime_ms. rewrite <- Helapsed.
    split; [ | split ].
    + intros q Hq. split; intros Hcmp.
      * rewrite (proj2 (float_ge_int_exact elapsed limit q Hq) Hcmp). reflexivity.
      * rewrite (proj2 (float_ge_int_exact_false elapsed limit q Hq) Hcmp). reflexivity.
    + intros Hinf.
      assert (Hge : float_ge_int elapsed limit = true) by (rewrite Hinf; reflexivity).
      rewrite Hge. reflexivity.
    + intros Hnot.
      assert (Hge : float_ge_int elapsed limit = false)
        by (destruct Hnot as [ -> | -> ]; reflexivity).
      rewrite Hge. reflexivity.
  - intros limit Hlimit. rewrite check_token_limit_run, Hlimit. split; intros Hcmp.
    + rewrite (proj2 (Z.leb_le _ _) Hcmp). reflexivity.
    + rewrite (proj2 (Z.leb_gt _ _) Hcmp). reflexivity.
  - intros limit Hlimit. rewrite check_cost_limit_run, Hlimit.
    split; [ intros ->; reflexivity | ]. split; [ intros ->; reflexivity | ].
    intros q_limit q_cost Hql Hqc. split; intros Hcmp.
    + rewrite (proj2 (float_leb_exact _ _ _ _ Hql Hqc) Hcmp). reflexivity.
    + rewrite (proj2 (float_leb_exact_false _ _ _ _ Hql Hqc) Hcmp). reflexivity.
  - intros limit Hlimit. rewrite check_step_limit_run, Hlimit. split; intros Heq.
    + rewrite Heq, Z.ltb_irrefl. reflexivity.
    + rewrite Heq, (proj2 (Z.ltb_lt limit (limit + 1))) by lia. reflexivity.
Qed.

(** A guard of 100 ms, 100 tokens and 1 dollar.  Started at a clock reading
    of 1000 s: at 1000.15 s the elapsed time is 149.99999999997726 ms and the
    runtime check trips; at 1000.05 s it is 49.999999999954525 ms and the
    check passes.  Started at 0: at 0.1 s the elapsed time is exactly 100 ms
    and the check trips.  100 tokens of 100 trip, 0 of 100 pass; 1 dollar of
    1 trips, 0 of 1 pass; 3 steps of 3 pass. *)
Lemma runtime_token_cost_trip_on_reaching_witness :
  check_runtime_limit 1000.15%float guard_started_late
  = Returned (Some {| should_terminate := true;
                      reason := "TIME_LIMIT_EXCEEDED";
                      details := [("current_runtime_ms", PyFloat 149.99999999997726%float);
                                  ("max_runtime_ms", PyInt 100)] |}, guard_started_late)
  /\ check_runtime_limit 1000.05%float guard_started_late
     = Returned (None, guard_started_late)
  /\ check_runtime_limit one_tenth guard_at_limits
     = Returned (Some {| should_terminate := true;
                         reason := "TIME_LIMIT_EXCEEDED";
                         details := [("current_runtime_ms", PyFloat 100%float);
                                     ("max_runtime_ms", PyInt 100)] |}, guard_at_limits)
  /\ check_token_limit guard_at_limits
     = Returned (Some {| should_terminate := true;
                         reason := "TOKEN_LIMIT_EXCEEDED";
                         details := [("token_count", PyInt 100);
                                     ("max_tokens", PyInt 100)] |}, guard_at_limits)
  /\ check_token_limit guard_started_late = Returned (None, guard_started_late)
  /\ check_cost_limit guard_at_limits
     = Returned (Some {| should_terminate := true;
                         reason := "COST_LIMIT_EXCEEDED";
                         details := [("current_cost_usd", PyFloat 1%float);
                                     ("max_cost_usd", PyFloat 1%float)] |}, guard_at_limits)
  /\ check_cost_limit guard_started_late = Returned (None, guard_started_late)
  /\ check_step_limit guard_at_limits = Returned (None, guard_at_limits).
Proof.
  pose proof (runtime_token_cost_trip_on_reaching 1000.15%float guard_started_late)
    as (Habove & _).
  pose proof (runtime_token_cost_trip_on_reaching 1000.05%float guard_started_late)
    as (Hbelow & Htok0 & Hcost0 & _).
  pose proof (runtime_token_cost_trip_on_reaching one_tenth guard_at_limits)
    as (Hequal & Htok & Hcost & Hstep).
  split; [ | split; [ | split; [ | split; [ | split; [ | split; [ | split ] ] ] ] ] ].
  - destruct (Habove 100 149.99999999997726%float eq_refl eq_refl) as (Hq & _).
    unshelve eapply (proj1 (Hq _ _));
      [ shelve | vm_compute; reflexivity | unfold Qle; vm_compute; discriminate ].
  - destruct (Hbelow 100 49.999999999954525%float eq_refl eq_refl) as (Hq & _).
    unshelve eapply (proj2 (Hq _ _));
      [ shelve | vm_compute; reflexivity | unfold Qlt; vm_compute; reflexivity ].
  - destruct (Hequal 100 100%float eq_refl eq_refl) as (Hq & _).
    unshelve eapply (proj1 (Hq _ _));
      [ shelve | vm_compute; reflexivity | unfold Qle; vm_compute; discriminate ].
  - apply (proj1 (Htok 100 eq_refl)). cbn. lia.
  - apply (proj2 (Htok0 100 eq_refl)). cbn. lia.
  - destruct (Hcost 1%float eq_refl) as (_ & _ & Hq).
    unshelve eapply (proj1 (Hq _ _ _ _));
      [ shelve | shelve | vm_compute; reflexivity | vm_compute; reflexivity
      | unfold Qle; vm_compute; discriminate ].
  - destruct (Hcost0 1%float eq_refl) as (_ & _ & Hq).
    unshelve eapply (proj2 (Hq _ _ _ _));
      [ shelve | shelve | vm_compute; reflexivity | vm_compute; reflexivity
      | unfold Qlt; vm_compute; reflexivity ].
  - apply (proj1 (Hstep 3 eq_refl)). reflexivity.
Defined.

(** The elapsed time that is compared is the rounded one.  The clock
    reading [0.009], whose exact value is below 9/1000, gives an elapsed
    time of exactly [9.0] ms on a guard started at 0, and a ceiling of 9 ms
    trips. *)
Example runtime_is_compared_after_rounding :
  let guard := fresh_guard 0%float "run"
                 {| max_steps := None; max_runtime_ms := Some 9;
                    max_tokens := None; max_cost_usd := None |} in
  (exists q, float_to_Q 0.009%float = Some q /\ (q * inject_Z 1000 < inject_Z 9)%Q)
  /\ runtime_ms 0.009%float guard = 9%float
  /\ verdict (check_runtime_limit 0.009%float guard)
     = Some {| should_terminate := true;
               reason := "TIME_LIMIT_EXCEEDED";
               details := [("current_runtime_ms", PyFloat 9%float);
                           ("max_runtime_ms", PyInt 9)] |}.
Proof.
  split; [ | split ].
  - eexists. split; [ vm_compute; reflexivity | ].
    unfold Qlt. vm_compute. reflexivity.
  - vm_compute. reflexivity.
  - vm_compute. reflexivity.
Qed.

(** * Usage reports *)

(** C5, as the code has it.  A token report [n <= 0] and a cost report that
    is not greater than zero (zero, negative, or NaN) return normally and
    leave every attribute of the guard as it was.  A report [n > 0] makes
    [token_count] exactly [token_count + n].  A report [amount > 0] makes
    [cost_tracker] the binary64 sum [cost_tracker + amount], that is the
    exact sum rounded to a representable number: on a guard with a
    non-negative [cost_tracker] its exact value is never below the old one,
    but it need not be the exact sum.  No other attribute changes. *)
Theorem usage_report_changes_one_counter
    (g : ExecutionGuard) (n : Z) (amount : float) :
  (n <= 0 -> add_tokens n g = Returned (tt, g))
  /\ (PrimFloat.leb amount 0%float = true -> add_cost amount g = Returned (tt, g))
  /\ (PrimFloat.ltb 0%float amount = false -> add_cost amount g = Returned (tt, g))
  /\ (0 < n ->
      add_tokens n g
      = Returned (tt, {| execution_id := execution_id g;
                         config := config g;
                         start_time := start_time g;
                         step_count := step_count g;
                         token_count := token_count g + n;
                         cost_tracker := cost_tracker g |}))
  /\ (PrimFloat.ltb 0%float amount = true ->
      add_cost amount g
      = Returned (tt, {| execution_id := execution_id g;
                         config := config g;
                         start_time := start_time g;
                         step_count := step_count g;
                         token_count := token_count g;
                         cost_tracker := PrimFloat.add (cost_tracker g) amount |}))
  /\ (PrimFloat.ltb 0%float amount = true ->
      PrimFloat.leb 0%float (cost_tracker g) = true ->
      forall g' q_old q_new,
        add_cost amount g = Returned (tt, g') ->
        float_to_Q (cost_tracker g) = Some q_old ->
        float_to_Q (cost_tracker g') = Some q_new ->
        (q_old <= q_new)%Q).
Proof.
  split; [ | split; [ | split; [ | split; [ | split ] ] ] ].
  - intros H. unfold add_tokens. rewrite (proj2 (Z.ltb_ge 0 n)) by lia. reflexivity.
  - intros H. unfold add_cost, float_gt_zero.
    rewrite (float_nonpos_not_pos _ H). reflexivity.
  - intros H. unfold add_cost, float_gt_zero. rewrite H. reflexivity.
  - intros H. unfold add_tokens. rewrite (proj2 (Z.ltb_lt 0 n)) by lia. reflexivity.
  - intros H. unfold add_cost, float_gt_zero. rewrite H. reflexivity.
  - intros Hpos Hnonneg g' q_old q_new Hrun Hold Hnew.
    unfold add_cost, float_gt_zero in Hrun. rewrite Hpos in Hrun.
    injection Hrun as <-. cbn [cost_tracker with_cost_tracker] in Hnew.
    apply (float_leb_exact _ _ _ _ Hold Hnew).
    apply (float_add_pos_ge _ _ Hnonneg Hpos).
Qed.

(** On the guard at 100 tokens and 1 dollar: reports of -5 tokens, of -0.1
    dollars and of NaN dollars are dropped; a report of 7 tokens makes 107
    tokens; a report of 0.1 dollars makes 1.1 dollars, which is not below
    1. *)
Lemma usage_report_changes_one_counter_witness :
  add_tokens (-5) guard_at_limits = Returned (tt, guard_at_limits)
  /\ add_cost (-0.1)%float guard_at_limits = Returned (tt, guard_at_limits)
  /\ add_cost nan guard_at_limits = Returned (tt, guard_at_limits)
  /\ add_tokens 7 guard_at_limits
     = Returned (tt, {| execution_id := "run"; config := four_limits;
                        start_time := 0%float; step_count := 3;
                        token_count := 107; cost_tracker := 1%float |})
  /\ add_cost one_tenth guard_at_limits
     = Returned (tt, {| execution_id := "run"; config := four_limits;
                        start_time := 0%float; step_count := 3;
                        token_count := 100; cost_tracker := 1.1%float |})
  /\ exists q_old q_new,
       float_to_Q 1%float = Some q_old
       /\ float_to_Q 1.1%float = Some q_new
       /\ (q_old <= q_new)%Q.
Proof.
  pose proof (usage_report_changes_one_counter guard_at_limits (-5)
                (-0.1)%float) as (Htok & Hneg & _).
  pose proof (usage_report_changes_one_counter guard_at_limits 7 nan)
    as (_ & _ & Hnan & Hadd & _).
  pose proof (usage_report_changes_one_counter guard_at_limits 7 one_tenth)
    as (_ & _ & _ & _ & Hcost & Hmono).
  split; [ | split; [ | split; [ | split; [ | split ] ] ] ].
  - apply Htok. lia.
  - apply Hneg. vm_compute. reflexivity.
  - apply Hnan. vm_compute. reflexivity.
  - apply Hadd. lia.
  - apply Hcost. vm_compute. reflexivity.
  - eexists. eexists.
    split; [ vm_compute; reflexivity | ].
    split; [ vm_compute; reflexivity | ].
    apply (Hmono ltac:(vm_compute; reflexivity) ltac:(vm_compute; reflexivity)
             {| execution_id := "run"; config := four_limits;
                start_time := 0%float; step_count := 3;
                token_count := 100; cost_tracker := 1.1%float |});
      vm_compute; reflexivity.
Defined.

(** C5 as stated fails for costs.  The guard built by the constructor and
    one report of 1 dollar holds [cost_tracker = 1.0].  A further report of
    [1e-17] dollars is positive, and [add_cost] returns the guard as it was:
    [cost_tracker] is still [1.0], not the old value plus the amount. *)
Lemma small_cost_report_is_absorbed :
  reachable guard_with_one_dollar
  /\ positive_report tiny_report
  /\ add_cost tiny_report guard_with_one_dollar = Returned (tt, guard_with_one_dollar)
  /\ exists q_old q_amount,
       float_to_Q (cost_tracker guard_with_one_dollar) = Some q_old
       /\ float_to_Q tiny_report = Some q_amount
       /\ (0 < q_amount)%Q
       /\ forall g' q_new,
            add_cost tiny_report guard_with_one_dollar = Returned (tt, g') ->
            float_to_Q (cost_tracker g') = Some q_new ->
            (q_new == q_old)%Q /\ ~ (q_new == q_old + q_amount)%Q.
Proof.
  split; [ | split; [ | split ] ].
  - exists 0%float, "run", no_limits, (fresh_guard 0%float "run" no_limits),
      [AddCost 1%float].
    split; vm_compute; reflexivity.
  - vm_compute. reflexivity.
  - vm_compute. reflexivity.
  - eexists. eexists.
    split; [ vm_compute; reflexivity | ].
    split; [ vm_compute; reflexivity | ].
    split; [ unfold Qlt; vm_compute; reflexivity | ].
    intros g' q_new Hrun Hnew.
    assert (Hsame : add_cost tiny_report guard_with_one_dollar
                    = Returned (tt, guard_with_one_dollar)) by (vm_compute; reflexivity).
    rewrite Hsame in Hrun. injection Hrun as <-.
    vm_compute in Hnew. injection Hnew as <-.
    split; [ reflexivity | ].
    unfold Qeq. vm_compute. discriminate.
Qed.
